(** * ACS zeropoints notebook: the flux and magnitude conversion

    A verification development for [acs_zeropoints.ipynb].  The notebook
    computes, cell by cell,

    - the aperture correction chain
        [flux05 = instrumental_flux / correction_02_to_05]
        [flux_inf = flux05 / correction_05_to_inf]
    - the STMag and ABMag zeropoints from [photflam] and [photplam],
    - the calibrated flux density and the three magnitudes of every source.

    Values are numpy [float64]; arrays are [np.ndarray]s of them, and every
    operator between an array and a scalar broadcasts elementwise.
    [photflam], [photplam] and [zp_vega] are numbers the synthetic-photometry
    library hands back ([obs.effstim(...)], [bp.pivot()]); what the library
    integrates is not in the notebook, and the three are inputs of the cells
    embedded here.

    The cells are embedded once, over an interface of the [float64]
    operations ([Arith], [Log10]), and read in two ways:

    - [Binary64]: the kernel's IEEE 754 binary64 numbers, bit for bit what
      numpy computes for [+ - * /].  numpy's [log10] is the C library's
      and has no bit-level definition: a statement about a cell that takes
      a logarithm holds for every function in its place, or assumes of it
      only what the statement names.  Where a computed result is compared
      with the real number a formula denotes, it is through [value], away
      from overflow and underflow, with the rounding errors bounded.
    - [Exact]: a [float64] is a real number or one of the IEEE special
      values [+inf], [-inf], [NaN].  Finite arithmetic is over the reals,
      which binary64 only approximates (it rounds, overflows and
      underflows); the special values follow IEEE 754, which is what numpy
      returns where Python would raise.  This reading serves one kind of
      conclusion: that a value is an infinity or [NaN], on which binary64
      agrees. *)

From Stdlib Require Import String Reals Lra List Bool ZArith QArith Qreals.
From Stdlib Require Import Floats Uint63 Lia.
Import ListNotations.

Set Implicit Arguments.
Set Warnings "-inexact-float".

(** ** The float64 interface *)

(** The arithmetic operators the cells apply to [float64] values, and the
    reading of a Python float literal. *)
Class Arith (F : Type) : Type := {
  fadd : F -> F -> F;
  fsub : F -> F -> F;
  fmul : F -> F -> F;
  fdiv : F -> F -> F;
  lit : Q -> F
}.

(** [np.log10] on a [float64]. *)
Class Log10 (F : Type) : Type := {
  flog10 : F -> F
}.

Declare Scope np_scope.
Delimit Scope np_scope with np.
Infix "+" := fadd : np_scope.
Infix "-" := fsub : np_scope.
Infix "*" := fmul : np_scope.
Infix "/" := fdiv : np_scope.

(** ** Arrays and broadcasting *)

Definition ndarray (F : Type) : Type := list F.

Section Broadcast.
Context {F : Type} `{Arith F} `{Log10 F}.

(** [a / c], array by scalar. *)
Definition arr_div (a : ndarray F) (c : F) : ndarray F :=
  map (fun x => (x / c)%np) a.

(** [a * c], array by scalar. *)
Definition arr_mul (a : ndarray F) (c : F) : ndarray F :=
  map (fun x => (x * c)%np) a.

(** [c * a], scalar by array. *)
Definition scal_mul (c : F) (a : ndarray F) : ndarray F :=
  map (fun x => (c * x)%np) a.

(** [a + c], array plus scalar. *)
Definition arr_add (a : ndarray F) (c : F) : ndarray F :=
  map (fun x => (x + c)%np) a.

(** [np.log10(a)]. *)
Definition np_log10 (a : ndarray F) : ndarray F :=
  map flog10 a.
End Broadcast.

(** ** The notebook cells *)

(** One row of [phot_table]: the five columns at one index. *)
Record PhotometryResult (F : Type) : Type := mkResult {
  measured_flux : F;
  row_f_lambda : F;
  st_mag : F;
  ab_mag : F;
  vega_mag : F
}.

(** [phot_table]: an astropy [Table] of five columns. *)
Record Table (F : Type) : Type := mkTable {
  col_measured_flux : ndarray F;
  col_f_lambda : ndarray F;
  col_st_mag : ndarray F;
  col_ab_mag : ndarray F;
  col_vega_mag : ndarray F
}.

(** The rows of a table, in order; the shortest column bounds them. *)
Fixpoint zip_rows {F : Type} (m f s a v : ndarray F)
  : list (PhotometryResult F) :=
  match m, f, s, a, v with
  | x :: m', y :: f', z :: s', u :: a', w :: v' =>
      mkResult x y z u w :: zip_rows m' f' s' a' v'
  | _, _, _, _, _ => []
  end.

Definition rows {F : Type} (t : Table F) : list (PhotometryResult F) :=
  zip_rows (col_measured_flux t) (col_f_lambda t) (col_st_mag t)
           (col_ab_mag t) (col_vega_mag t).

Section Notebook.
Context {F : Type} `{Arith F} `{Log10 F}.

(** [instrumental_flux = np.array([5.2393, 7.2935, 3.2355, 4.9368])] *)
Definition instrumental_flux : ndarray F :=
  [lit 5.2393; lit 7.2935; lit 3.2355; lit 4.9368].

(** [correction_05_to_inf = 0.915] *)
Definition correction_05_to_inf : F := lit 0.915.

(** [flux05 = instrumental_flux / correction_02_to_05] *)
Definition flux05 (instrumental_flux : ndarray F) (correction_02_to_05 : F)
  : ndarray F :=
  arr_div instrumental_flux correction_02_to_05.

(** [flux_inf = flux05 / correction_05_to_inf] *)
Definition flux_inf (instrumental_flux : ndarray F)
    (correction_02_to_05 correction_05_to_inf : F) : ndarray F :=
  arr_div (flux05 instrumental_flux correction_02_to_05)
          correction_05_to_inf.

(** [zp_stmag = -2.5 * np.log10(photflam) - 21.10] *)
Definition zp_stmag (photflam : F) : F :=
  (lit (-2.5) * flog10 photflam - lit 21.10)%np.

(** [zp_abmag = -2.5 * np.log10(photflam) - (5 * np.log10(photplam)) - 2.408] *)
Definition zp_abmag (photflam photplam : F) : F :=
  (lit (-2.5) * flog10 photflam - (lit 5 * flog10 photplam) - lit 2.408)%np.

(** [f_lambda = flux_inf * photflam] *)
Definition f_lambda (flux_inf : ndarray F) (photflam : F) : ndarray F :=
  arr_mul flux_inf photflam.

(** [-2.5 * np.log10(flux_inf) + zp], the shape shared by the three
    magnitude cells. *)
Definition mags (flux_inf : ndarray F) (zp : F) : ndarray F :=
  arr_add (scal_mul (lit (-2.5)) (np_log10 flux_inf)) zp.

(** [stmags = -2.5 * np.log10(flux_inf) + zp_stmag] *)
Definition stmags (flux_inf : ndarray F) (zp_stmag : F) : ndarray F :=
  mags flux_inf zp_stmag.

(** [abmags = -2.5 * np.log10(flux_inf) + zp_abmag] *)
Definition abmags (flux_inf : ndarray F) (zp_abmag : F) : ndarray F :=
  mags flux_inf zp_abmag.

(** [vegamags = -2.5 * np.log10(flux_inf) + zp_vega] *)
Definition vegamags (flux_inf : ndarray F) (zp_vega : F) : ndarray F :=
  mags flux_inf zp_vega.

(** [phot_table = Table({'Measured Flux': instrumental_flux,
    'F_lambda': f_lambda, 'ST Mag': stmags, 'AB Mag': abmags,
    'Vega Mag': vegamags})], with the conversion cell above it. *)
Definition phot_table_of (instrumental_flux flux_inf : ndarray F)
    (photflam zp_stmag zp_abmag zp_vega : F) : Table F :=
  mkTable instrumental_flux
          (f_lambda flux_inf photflam)
          (stmags flux_inf zp_stmag)
          (abmags flux_inf zp_abmag)
          (vegamags flux_inf zp_vega).

(** The cells in order, from the aperture correction to the table. *)
Definition phot_table (instrumental_flux : ndarray F)
    (correction_02_to_05 correction_05_to_inf photflam photplam zp_vega : F)
  : Table F :=
  phot_table_of
    instrumental_flux
    (flux_inf instrumental_flux correction_02_to_05 correction_05_to_inf)
    photflam (zp_stmag photflam) (zp_abmag photflam photplam) zp_vega.

(** The cells applied to one measured flux: the row of [phot_table] that
    belongs to it. *)
Definition photometry_result
    (correction_02_to_05 correction_05_to_inf photflam photplam zp_vega : F)
    (flux : F) : PhotometryResult F :=
  let fi := (flux / correction_02_to_05 / correction_05_to_inf)%np in
  let m := (lit (-2.5) * flog10 fi)%np in
  mkResult flux
           (fi * photflam)%np
           (m + zp_stmag photflam)%np
           (m + zp_abmag photflam photplam)%np
           (m + zp_vega)%np.
End Notebook.

(** ** Exact reading: extended reals *)

Module Exact.
Local Open Scope R_scope.

(** A [float64] without rounding: a real, or an IEEE special value. *)
Inductive float64 : Type :=
| Fin (r : R)
| PInf
| NInf
| NaN.

(** The sign of a real, as a three-way comparison with zero. *)
Definition sign_of (r : R) : comparison :=
  match total_order_T r 0 with
  | inleft (left _) => Lt
  | inleft (right _) => Eq
  | inright _ => Gt
  end.

(** The infinity of a given sign; a product or quotient whose sign is
    undetermined ([inf * 0], [0 / 0]) is [NaN]. *)
Definition inf_of (s : comparison) : float64 :=
  match s with
  | Gt => PInf
  | Lt => NInf
  | Eq => NaN
  end.

Definition flip (s : comparison) : comparison := CompOpp s.

Definition xopp (x : float64) : float64 :=
  match x with
  | Fin r => Fin (- r)
  | PInf => NInf
  | NInf => PInf
  | NaN => NaN
  end.

Definition xadd (x y : float64) : float64 :=
  match x, y with
  | NaN, _ | _, NaN => NaN
  | Fin a, Fin b => Fin (a + b)
  | PInf, NInf | NInf, PInf => NaN
  | PInf, _ | _, PInf => PInf
  | NInf, _ | _, NInf => NInf
  end.

Definition xsub (x y : float64) : float64 := xadd x (xopp y).

Definition xmul (x y : float64) : float64 :=
  match x, y with
  | NaN, _ | _, NaN => NaN
  | Fin a, Fin b => Fin (a * b)
  | PInf, Fin r | Fin r, PInf => inf_of (sign_of r)
  | NInf, Fin r | Fin r, NInf => inf_of (flip (sign_of r))
  | PInf, PInf | NInf, NInf => PInf
  | PInf, NInf | NInf, PInf => NInf
  end.

(** Division.  A finite value over zero is an infinity of the dividend's
    sign, [0 / 0] is [NaN]: numpy returns them (with a RuntimeWarning)
    where Python's own [float] would raise ZeroDivisionError.  The single
    zero of this reading divides like [+0.0]. *)
Definition xdiv (x y : float64) : float64 :=
  match x, y with
  | NaN, _ | _, NaN => NaN
  | Fin a, Fin b =>
      match sign_of b with
      | Eq => inf_of (sign_of a)
      | _ => Fin (a / b)
      end
  | Fin _, (PInf | NInf) => Fin 0
  | PInf, Fin b =>
      match sign_of b with Lt => NInf | _ => PInf end
  | NInf, Fin b =>
      match sign_of b with Lt => PInf | _ => NInf end
  | (PInf | NInf), (PInf | NInf) => NaN
  end.

(** The base-10 logarithm of a positive real. *)
Definition log10 (r : R) : R := Rlog 10 r.

(** [np.log10]: the logarithm of a positive value, [-inf] at zero and
    [NaN] below it (each with a RuntimeWarning, never an exception). *)
Definition xlog10 (x : float64) : float64 :=
  match x with
  | Fin r =>
      match sign_of r with
      | Gt => Fin (log10 r)
      | Eq => NInf
      | Lt => NaN
      end
  | PInf => PInf
  | NInf => NaN
  | NaN => NaN
  end.

#[export] Instance exact_arith : Arith float64 := {|
  fadd := xadd;
  fsub := xsub;
  fmul := xmul;
  fdiv := xdiv;
  lit := fun q => Fin (Q2R q)
|}.

#[export] Instance exact_log10 : Log10 float64 := {|
  flog10 := xlog10
|}.

(** A value that is a real number. *)
Definition is_finite (x : float64) : bool :=
  match x with
  | Fin _ => true
  | _ => false
  end.

End Exact.

(** ** Binary64 reading: the kernel's IEEE 754 floats *)

Module Binary64.
Local Open Scope float_scope.

Definition of_Z (z : Z) : float :=
  match z with
  | Z0 => 0
  | Zpos _ => of_uint63 (Uint63.of_Z z)
  | Zneg p => - of_uint63 (Uint63.of_Z (Zpos p))
  end.

(** A decimal literal, correctly rounded: numerator and denominator are
    exact in binary64 for the literals of the notebook, and IEEE division
    rounds their quotient to the nearest float, as Python's parser does. *)
Definition of_Q (q : Q) : float :=
  of_Z (Qnum q) / of_Z (Zpos (Qden q)).

#[export] Instance binary64_arith : Arith float := {|
  fadd := PrimFloat.add;
  fsub := PrimFloat.sub;
  fmul := PrimFloat.mul;
  fdiv := PrimFloat.div;
  lit := of_Q
|}.
End Binary64.


(** ** The contracts as the specification words them

    Used only to compare the cells with: the specification rejects the
    inputs on which a logarithm or a quotient is undefined. *)

Module Spec.
Import Exact Binary64.
Local Open Scope R_scope.

(** The specification's error taxonomy. *)
Inductive error : Type :=
| DomainError
| ConfigMismatch
| MissingCalibration.

(** Aperture correction chain: [flux_raw / c1 / c2]; a zero factor is
    flagged as invalid input. *)
Definition aperture_chain (flux_raw c1 c2 : R) : error + R :=
  match sign_of c1, sign_of c2 with
  | Eq, _ | _, Eq => inl MissingCalibration
  | _, _ => inr (flux_raw / c1 / c2)
  end.

(** Magnitude converter: [-2.5 log10(flux_inf) + zp]; a non-positive flux
    is a domain error. *)
Definition magnitude (flux_inf zp : R) : error + R :=
  match sign_of flux_inf with
  | Gt => inr (-2.5 * log10 flux_inf + zp)
  | _ => inl DomainError
  end.

(** Zeropoint calculator, STMag: [-2.5 log10(photflam) - 21.10]; a
    non-positive [photflam] is rejected. *)
Definition zeropoint_st (photflam : R) : error + R :=
  match sign_of photflam with
  | Gt => inr (-2.5 * log10 photflam - 21.10)
  | _ => inl DomainError
  end.

(** Modelled from the spec: the inverse conversion of its round-trip
    property, [10^((zp - mag) / 2.5)].  The notebook has no cell for it. *)
Definition flux_of_magnitude (zp mag : R) : R :=
  Rpower 10 ((zp - mag) / 2.5).

End Spec.


(** ** Classes of binary64 values

    Predicates on the binary64 numbers, for stating where the aperture
    correction and the flux density can and cannot land. *)

(** A float that is positive and finite: a legitimate count rate,
    correction factor or [photflam]. *)
Definition positive_finite (x : float) : bool :=
  ((0 <? x)%float && PrimFloat.is_finite x)%bool.

(** A float that is neither [NaN] nor below zero: [np.log10] of it is a
    number or an infinity, never [NaN]. *)
Definition not_nan_nor_negative (x : float) : bool :=
  (negb (PrimFloat.is_nan x) && negb (x <? 0)%float)%bool.

(** The same class on the specification floats: [+0], a positive finite
    number, or [+inf]. *)
Definition sf_nonneg (x : spec_float) : bool :=
  match x with
  | S754_zero false | S754_infinity false | S754_finite false _ _ => true
  | _ => false
  end.

(** ** What is assumed of [np.log10]

    Outside the domain of the logarithm numpy returns a special value, with
    a RuntimeWarning and no exception: [-inf] for [0.0] and for [-0.0],
    [NaN] for a negative number. *)
Definition log10_outside_domain (L : Log10 float) : Prop :=
  (forall x, PrimFloat.is_zero x = true -> flog10 x = neg_infinity) /\
  (forall x, (x <? 0)%float = true -> flog10 x = nan).


(** ** The real number a binary64 number denotes

    For comparing a computed result with the real number a formula of the
    specification denotes. *)

(** The sign bit as a factor. *)
Definition sign_Z (s : bool) : Z := if s then (-1)%Z else 1%Z.

(** [(-1)^s * m * 2^e] for a finite number; [0] for the zeros and, by
    convention, for the infinities and [NaN]. *)
Definition sf_value (x : spec_float) : R :=
  match x with
  | S754_finite s m e => (IZR (sign_Z s * Z.pos m) * powerRZ 2 e)%R
  | _ => 0%R
  end.

Definition value (x : float) : R := sf_value (Prim2SF x).

(** A positive number between [2^-200] and [2^200]: a count rate, a
    correction factor or a [photflam]; products and quotients of a few of
    them neither overflow nor underflow. *)
Definition moderate (x : float) : bool :=
  ((0x1p-200 <=? x)%float && (x <=? 0x1p200)%float)%bool.

(** A number of the size of a logarithm, a magnitude or a zeropoint:
    zero, or between [2^-200] and [512] in absolute value. *)
Definition small (x : float) : bool :=
  (PrimFloat.is_zero x
   || ((0x1p-200 <=? abs x)%float && (abs x <=? 512)%float))%bool.

(** A positive normal number with its exponent between [a] and [b]. *)
Definition normal_between (a b : Z) (x : float) : Prop :=
  exists (m : positive) (e : Z),
    Prim2SF x = S754_finite false m e /\
    (2 ^ 52 <= Z.pos m < 2 ^ 53 /\ a <= e <= b)%Z.

(** A zero, or a normal number of either sign with its exponent between
    [a] and [b]. *)
Definition sf_regular (a b : Z) (x : spec_float) : Prop :=
  match x with
  | S754_zero _ => True
  | S754_finite _ m e => (2 ^ 52 <= Z.pos m < 2 ^ 53 /\ a <= e <= b)%Z
  | _ => False
  end.

Definition regular (a b : Z) (x : float) : Prop :=
  sf_regular a b (Prim2SF x).

(** * Properties *)

Import Exact Binary64.
Local Open Scope R_scope.

(** ** Signs and the arithmetic of finite values *)

(** Case analysis on the sign of [r], closing the cases arithmetic
    rules out. *)
Ltac sign_cases r :=
  unfold sign_of;
  destruct (total_order_T r 0) as [[? | ?] | ?];
  try reflexivity; try lra.

Lemma sign_of_pos (r : R) : 0 < r -> sign_of r = Gt.
Proof. intros Hr. sign_cases r. Qed.

Lemma sign_of_neg (r : R) : r < 0 -> sign_of r = Lt.
Proof. intros Hr. sign_cases r. Qed.

Lemma sign_of_zero : sign_of 0 = Eq.
Proof. sign_cases 0. Qed.

Lemma sign_of_Eq (r : R) : sign_of r = Eq <-> r = 0.
Proof.
  unfold sign_of.
  destruct (total_order_T r 0) as [[Hlt | Heq] | Hgt];
    split; intros Hs; try discriminate; try reflexivity; try assumption; lra.
Qed.

Lemma xdiv_fin (a b : R) : b <> 0 -> xdiv (Fin a) (Fin b) = Fin (a / b).
Proof.
  intros Hb. unfold xdiv.
  destruct (sign_of b) eqn:Hs; try reflexivity.
  now apply sign_of_Eq in Hs.
Qed.

Lemma xdiv_by_zero (a : R) : xdiv (Fin a) (Fin 0) = inf_of (sign_of a).
Proof.
  unfold xdiv. now rewrite sign_of_zero.
Qed.

Lemma inf_of_sign_not_finite (r : R) : is_finite (inf_of (sign_of r)) = false.
Proof.
  destruct (sign_of r); reflexivity.
Qed.

Lemma xdiv_not_finite_l (x : float64) (c : R) :
  is_finite x = false -> is_finite (xdiv x (Fin c)) = false.
Proof.
  destruct x as [r | | |]; simpl; intros Hx; try discriminate;
    try reflexivity; destruct (sign_of c); reflexivity.
Qed.

Lemma xlog10_zero : xlog10 (Fin 0) = NInf.
Proof.
  unfold xlog10. now rewrite sign_of_zero.
Qed.

Lemma xlog10_neg (r : R) : r < 0 -> xlog10 (Fin r) = NaN.
Proof.
  intros Hr. unfold xlog10. now rewrite sign_of_neg.
Qed.

(** ** The rows of the table

    Facts that hold for every reading of the [float64] operations. *)

Lemma flux_inf_length {F : Type} `{Arith F} (raws : ndarray F) (c1 c2 : F) :
  length (flux_inf raws c1 c2) = length raws.
Proof.
  unfold flux_inf, flux05, arr_div. now rewrite !length_map.
Qed.

Lemma zip_rows_map {A F : Type} (f1 f2 f3 f4 f5 : A -> F) (l : list A) :
  zip_rows (map f1 l) (map f2 l) (map f3 l) (map f4 l) (map f5 l)
  = map (fun x => mkResult (f1 x) (f2 x) (f3 x) (f4 x) (f5 x)) l.
Proof.
  induction l as [| x l IH]; simpl; [reflexivity | now rewrite IH].
Qed.

(** The table has the row of each measured flux, in order. *)
Lemma rows_phot_table {F : Type} `{Arith F} `{Log10 F}
    (raws : ndarray F) (c1 c2 photflam photplam zp_vega : F) :
  rows (phot_table raws c1 c2 photflam photplam zp_vega)
  = map (photometry_result c1 c2 photflam photplam zp_vega) raws.
Proof.
  unfold rows, phot_table, phot_table_of. simpl.
  unfold f_lambda, stmags, abmags, vegamags, mags, flux_inf, flux05.
  unfold arr_add, scal_mul, np_log10, arr_mul, arr_div.
  rewrite !map_map.
  rewrite <- (map_id raws) at 1.
  rewrite zip_rows_map. reflexivity.
Qed.

(** C9.  Two measurement sets that agree at index [i], converted with the
    same correction factors, calibration constants and zeropoints, have the
    same [i]-th result: a row depends on its own measured flux and on the
    shared constants only. *)
Theorem result_depends_on_own_flux {F : Type} `{Arith F} `{Log10 F}
    (m1 m2 : ndarray F) (c1 c2 photflam photplam zp_vega : F) (i : nat) :
  nth_error m1 i = nth_error m2 i ->
  nth_error (rows (phot_table m1 c1 c2 photflam photplam zp_vega)) i
  = nth_error (rows (phot_table m2 c1 c2 photflam photplam zp_vega)) i.
Proof.
  intros Hi. rewrite !rows_phot_table, !nth_error_map. now rewrite Hi.
Qed.

Lemma result_depends_on_own_flux_example :
  nth_error [Fin 5.2393; Fin 7.2935] 1 = nth_error [Fin 3.2355; Fin 7.2935] 1 /\
  nth_error (rows (phot_table [Fin 5.2393; Fin 7.2935] (Fin 0.8) (Fin 0.915)
                              (Fin 1e-18) (Fin 5500) (Fin 25.6))) 1
  = nth_error (rows (phot_table [Fin 3.2355; Fin 7.2935] (Fin 0.8) (Fin 0.915)
                                (Fin 1e-18) (Fin 5500) (Fin 25.6))) 1.
Proof.
  assert (Hi : nth_error [Fin 5.2393; Fin 7.2935] 1
               = nth_error [Fin 3.2355; Fin 7.2935] 1) by reflexivity.
  split; [exact Hi |].
  exact (result_depends_on_own_flux _ _ (Fin 0.8) (Fin 0.915) (Fin 1e-18)
                                    (Fin 5500) (Fin 25.6) 1 Hi).
Defined.

(** The five columns handed to [Table] have one entry per measured flux,
    whatever the values are, so the table has that many rows; an empty
    measurement set gives an empty table. *)
Theorem phot_table_columns_aligned {F : Type} `{Arith F} `{Log10 F}
    (raws : ndarray F) (c1 c2 photflam photplam zp_vega : F) :
  let t := phot_table raws c1 c2 photflam photplam zp_vega in
  length (col_measured_flux t) = length raws /\
  length (col_f_lambda t) = length raws /\
  length (col_st_mag t) = length raws /\
  length (col_ab_mag t) = length raws /\
  length (col_vega_mag t) = length raws /\
  length (rows t) = length raws.
Proof.
  intros t. subst t. rewrite rows_phot_table.
  unfold phot_table, phot_table_of. simpl.
  unfold f_lambda, stmags, abmags, vegamags, mags, flux_inf, flux05.
  unfold arr_add, scal_mul, np_log10, arr_mul, arr_div.
  rewrite !length_map. repeat split; reflexivity.
Qed.

(** ** A correction factor that is zero *)

(** C6, as stated, fails: with [c1 = 0] the specification flags the input,
    the cells divide and return [+inf], in the exact reading and in
    binary64 alike. *)
Lemma zero_factor_is_divided_by :
  Spec.aperture_chain 10 0 0.9 = inl Spec.MissingCalibration /\
  flux_inf [Fin 10] (Fin 0) (Fin 0.9) = [PInf] /\
  flux_inf [10%float] 0%float 0.9%float = [infinity].
Proof.
  split; [| split].
  - unfold Spec.aperture_chain. now rewrite sign_of_zero.
  - change (flux_inf [Fin 10] (Fin 0) (Fin 0.9))
      with [xdiv (xdiv (Fin 10) (Fin 0)) (Fin 0.9)].
    rewrite xdiv_by_zero, sign_of_pos by lra. simpl.
    rewrite sign_of_pos by lra. reflexivity.
  - vm_compute. reflexivity.
Qed.

(** C6, amended.  When [c1] or [c2] is zero the chain checks nothing and
    divides all the same: it returns one value per raw flux, and none of
    them is finite (each is [+inf], [-inf] or [NaN]). *)
Theorem zero_factor_gives_non_finite (raws : list R) (c1 c2 : R) :
  c1 = 0 \/ c2 = 0 ->
  length (flux_inf (map Fin raws) (Fin c1) (Fin c2)) = length raws /\
  Forall (fun v => is_finite v = false)
         (flux_inf (map Fin raws) (Fin c1) (Fin c2)).
Proof.
  intros Hzero. split.
  - now rewrite flux_inf_length, length_map.
  - unfold flux_inf, flux05, arr_div. rewrite !map_map.
    apply Forall_map, Forall_forall. intros x _.
    change (is_finite (xdiv (xdiv (Fin x) (Fin c1)) (Fin c2)) = false).
    destruct (Req_dec_T c1 0) as [Hc1 | Hc1].
    + subst c1. apply xdiv_not_finite_l.
      rewrite xdiv_by_zero. apply inf_of_sign_not_finite.
    + destruct Hzero as [Hc | Hc]; [contradiction | subst c2].
      rewrite xdiv_fin by assumption.
      rewrite xdiv_by_zero. apply inf_of_sign_not_finite.
Qed.

Lemma zero_factor_gives_non_finite_example :
  (0 = 0 \/ 0.9 = 0) /\
  length (flux_inf (map Fin [10]) (Fin 0) (Fin 0.9)) = length [10] /\
  Forall (fun v => is_finite v = false)
         (flux_inf (map Fin [10]) (Fin 0) (Fin 0.9)).
Proof.
  assert (Hz : 0 = 0 \/ 0.9 = 0) by (left; reflexivity).
  split; [exact Hz |].
  exact (zero_factor_gives_non_finite [10] Hz).
Defined.

(** ** Inputs outside the domain of the logarithm *)

Lemma scaled_log_zero : xmul (Fin (-2.5)) (xlog10 (Fin 0)) = PInf.
Proof.
  rewrite xlog10_zero. simpl. now rewrite sign_of_neg by lra.
Qed.

Lemma scaled_log_neg (x : R) : x < 0 -> xmul (Fin (-2.5)) (xlog10 (Fin x)) = NaN.
Proof.
  intros Hx. now rewrite xlog10_neg.
Qed.

Lemma mags_singleton (x zp : float64) :
  mags [x] zp = [xadd (xmul (Fin (-2.5)) (xlog10 x)) zp].
Proof. reflexivity. Qed.

Lemma mags_zero (zp : R) : mags [Fin 0] (Fin zp) = [PInf].
Proof.
  now rewrite mags_singleton, scaled_log_zero.
Qed.

Lemma mags_neg (x zp : R) : x < 0 -> mags [Fin x] (Fin zp) = [NaN].
Proof.
  intros Hx. now rewrite mags_singleton, scaled_log_neg.
Qed.

Lemma zp_stmag_neg (x : R) : x < 0 -> zp_stmag (Fin x) = NaN.
Proof.
  intros Hx. unfold zp_stmag.
  change (xsub (xmul (Fin (-2.5)) (xlog10 (Fin x))) (Fin 21.10) = NaN).
  now rewrite scaled_log_neg.
Qed.

(** C5, as stated, fails: where the specification raises DomainError, the
    cells return [+inf] for a zero flux and [NaN] for a negative one, and
    [NaN] for the zeropoint of a negative [photflam]. *)
Lemma non_positive_inputs_are_not_rejected :
  Spec.magnitude 0 25 = inl Spec.DomainError /\
  Spec.magnitude (-1) 25 = inl Spec.DomainError /\
  stmags [Fin 0] (Fin 25) = [PInf] /\
  stmags [Fin (-1)] (Fin 25) = [NaN] /\
  Spec.zeropoint_st (-1) = inl Spec.DomainError /\
  zp_stmag (Fin (-1)) = NaN.
Proof.
  repeat split.
  - unfold Spec.magnitude. now rewrite sign_of_zero.
  - unfold Spec.magnitude. now rewrite sign_of_neg by lra.
  - apply mags_zero.
  - apply mags_neg. lra.
  - unfold Spec.zeropoint_st. now rewrite sign_of_neg by lra.
  - apply zp_stmag_neg. lra.
Qed.

(** ** A missing measurement *)

Lemma photometry_result_nan (c1 c2 photflam photplam zp_vega : float64) :
  photometry_result c1 c2 photflam photplam zp_vega NaN
  = mkResult NaN NaN NaN NaN NaN.
Proof.
  unfold photometry_result.
  change (NaN / c1 / c2)%np with (xdiv (xdiv NaN c1) c2).
  change (xdiv NaN c1) with NaN. change (xdiv NaN c2) with NaN.
  reflexivity.
Qed.

(** A measured flux that is [NaN] gives a row of [NaN]s (flux density and
    all three magnitudes), whatever the correction factors, calibration
    constants and zeropoint are. *)
Theorem nan_flux_gives_nan_row
    (raws : ndarray float64) (c1 c2 photflam photplam zp_vega : float64)
    (i : nat) :
  nth_error raws i = Some NaN ->
  nth_error (rows (phot_table raws c1 c2 photflam photplam zp_vega)) i
  = Some (mkResult NaN NaN NaN NaN NaN).
Proof.
  intros Hi. rewrite rows_phot_table, nth_error_map, Hi. simpl.
  now rewrite photometry_result_nan.
Qed.

Lemma nan_flux_gives_nan_row_example :
  nth_error [Fin 5.2393; NaN] 1 = Some NaN /\
  nth_error (rows (phot_table [Fin 5.2393; NaN] (Fin 0.8) (Fin 0.915)
                              (Fin 1e-18) (Fin 5500) (Fin 25.6))) 1
  = Some (mkResult NaN NaN NaN NaN NaN).
Proof.
  assert (Hi : nth_error [Fin 5.2393; NaN] 1 = Some NaN) by reflexivity.
  split; [exact Hi |].
  exact (nan_flux_gives_nan_row [Fin 5.2393; NaN] (Fin 0.8) (Fin 0.915)
                                (Fin 1e-18) (Fin 5500) (Fin 25.6) 1 Hi).
Defined.

(** ** The round trip of the specification

    The specification's inverse conversion, over the reals.  In binary64
    every operation rounds, and [np.log10] and the power function round in
    a way the C library does not fix, so this says nothing about the last
    bits numpy computes. *)

(** In exact arithmetic, the magnitude of a positive flux converts back to
    the flux. *)
Lemma magnitude_round_trip_exact (x zp : R) :
  0 < x ->
  Spec.magnitude x zp = inr (-2.5 * log10 x + zp) /\
  Spec.flux_of_magnitude zp (-2.5 * log10 x + zp) = x.
Proof.
  intros Hx. split.
  - unfold Spec.magnitude. now rewrite sign_of_pos.
  - unfold Spec.flux_of_magnitude.
    set (l := log10 x).
    replace ((zp - (-2.5 * l + zp)) / 2.5) with l by lra.
    subst l. apply Rpower_Rlog; lra.
Qed.

(** * The cells in binary64

    From here on a [float64] is a binary64 number and [+ - * /] are the
    IEEE 754 operations numpy runs. *)

(** ** The aperture correction and the flux density in binary64

    Facts about all binary64 inputs, from the specification of the
    kernel's float operations. *)

Lemma sf_of_zero : Prim2SF 0%float = S754_zero false.
Proof. vm_compute. reflexivity. Qed.

Lemma sf_of_infinity : Prim2SF infinity = S754_infinity false.
Proof. vm_compute. reflexivity. Qed.

Lemma sf_of_nan : Prim2SF nan = S754_nan.
Proof. vm_compute. reflexivity. Qed.

Lemma SFeqb_refl_not_nan (x : spec_float) :
  x <> S754_nan -> SFeqb x x = true.
Proof.
  intros Hx. destruct x as [s | s | | s m e]; simpl.
  - reflexivity.
  - destruct s; reflexivity.
  - contradiction.
  - unfold SFeqb, SFcompare.
    destruct s; rewrite Z.compare_refl, Pos.compare_cont_refl; reflexivity.
Qed.

Lemma is_nan_sf (x : float) :
  PrimFloat.is_nan x = true <-> Prim2SF x = S754_nan.
Proof.
  unfold PrimFloat.is_nan. rewrite FloatAxioms.eqb_spec. split.
  - intros Hn. destruct (Prim2SF x) as [s | s | | s m e] eqn:Hx;
      try reflexivity;
      rewrite SFeqb_refl_not_nan in Hn by discriminate; discriminate.
  - intros Hx. now rewrite Hx.
Qed.

Lemma is_nan_eq (x : float) : PrimFloat.is_nan x = true -> x = nan.
Proof.
  intros Hn. apply Prim2SF_inj. rewrite sf_of_nan. now apply is_nan_sf.
Qed.

Lemma is_zero_sf (c : float) :
  PrimFloat.is_zero c = true -> exists s, Prim2SF c = S754_zero s.
Proof.
  unfold PrimFloat.is_zero. rewrite FloatAxioms.eqb_spec.
  change (Prim2SF zero) with (Prim2SF 0%float). rewrite sf_of_zero.
  destruct (Prim2SF c) as [s | s | | s m e]; simpl;
    try discriminate; try (destruct s; discriminate).
  intros _. now exists s.
Qed.

Lemma not_finite_sf (f : float) :
  Prim2SF f = S754_nan \/ (exists s, Prim2SF f = S754_infinity s) ->
  PrimFloat.is_finite f = false.
Proof.
  intros Hf.
  unfold PrimFloat.is_finite, PrimFloat.is_nan, PrimFloat.is_infinity.
  rewrite !FloatAxioms.eqb_spec, FloatAxioms.abs_spec, sf_of_infinity.
  destruct Hf as [Hf | [s Hf]]; rewrite Hf; simpl.
  - reflexivity.
  - destruct s; reflexivity.
Qed.

Lemma div_by_zero_sf (x c : float) :
  PrimFloat.is_zero c = true ->
  Prim2SF (x / c) = S754_nan \/ (exists s, Prim2SF (x / c) = S754_infinity s).
Proof.
  intros Hc. destruct (is_zero_sf Hc) as [s Hs].
  rewrite FloatAxioms.div_spec, Hs. unfold SF64div.
  destruct (Prim2SF x) as [sx | sx | | sx m e]; simpl; eauto.
Qed.

Lemma div_special_sf (x c : float) :
  Prim2SF x = S754_nan \/ (exists s, Prim2SF x = S754_infinity s) ->
  Prim2SF (x / c) = S754_nan \/ (exists s, Prim2SF (x / c) = S754_infinity s).
Proof.
  intros Hx. rewrite FloatAxioms.div_spec. unfold SF64div.
  destruct Hx as [Hx | [s Hx]]; rewrite Hx.
  - left. destruct (Prim2SF c); reflexivity.
  - destruct (Prim2SF c) as [sc | sc | | sc m e]; simpl; eauto.
Qed.

Lemma div_nan_l (c : float) : (nan / c)%float = nan.
Proof.
  apply Prim2SF_inj. rewrite FloatAxioms.div_spec, sf_of_nan. reflexivity.
Qed.

Lemma div_nan_r (x : float) : (x / nan)%float = nan.
Proof.
  apply Prim2SF_inj. rewrite FloatAxioms.div_spec, sf_of_nan.
  destruct (Prim2SF x); reflexivity.
Qed.

Lemma mul_nan_l (c : float) : (nan * c)%float = nan.
Proof.
  apply Prim2SF_inj. rewrite FloatAxioms.mul_spec, sf_of_nan. reflexivity.
Qed.

(** In binary64, for every raw flux and every pair of factors: when [c1]
    or [c2] compares equal to zero ([0.0] or [-0.0]) no entry of
    [flux_inf] is finite. *)
Theorem zero_factor_non_finite_binary64 (raws : ndarray float) (c1 c2 : float) :
  PrimFloat.is_zero c1 = true \/ PrimFloat.is_zero c2 = true ->
  Forall (fun v => PrimFloat.is_finite v = false) (flux_inf raws c1 c2).
Proof.
  intros Hzero. unfold flux_inf, flux05, arr_div. rewrite map_map.
  apply Forall_map, Forall_forall. intros x _.
  change (PrimFloat.is_finite (x / c1 / c2)%float = false).
  apply not_finite_sf.
  destruct Hzero as [Hc | Hc].
  - apply div_special_sf. now apply div_by_zero_sf.
  - now apply div_by_zero_sf.
Qed.

Lemma zero_factor_non_finite_binary64_example :
  (PrimFloat.is_zero 0%float = true \/ PrimFloat.is_zero 0.915%float = true) /\
  Forall (fun v => PrimFloat.is_finite v = false)
         (flux_inf [5.2393%float; 0%float; (-3)%float] 0%float 0.915%float).
Proof.
  assert (Hz : PrimFloat.is_zero 0%float = true
               \/ PrimFloat.is_zero 0.915%float = true)
    by (left; vm_compute; reflexivity).
  split; [exact Hz |].
  exact (@zero_factor_non_finite_binary64
           [5.2393%float; 0%float; (-3)%float] 0%float 0.915%float Hz).
Defined.

(** In binary64, a [NaN] among a measured flux and the two correction
    factors makes the corrected flux of that entry [NaN], and its flux
    density too, whatever [photflam] is. *)
Theorem nan_propagates_binary64
    (raws : ndarray float) (c1 c2 photflam x : float) (i : nat) :
  nth_error raws i = Some x ->
  PrimFloat.is_nan x = true \/ PrimFloat.is_nan c1 = true
  \/ PrimFloat.is_nan c2 = true ->
  nth_error (flux_inf raws c1 c2) i = Some nan /\
  nth_error (f_lambda (flux_inf raws c1 c2) photflam) i = Some nan.
Proof.
  intros Hi Hnan.
  assert (Hfi : (x / c1 / c2)%float = nan).
  { destruct Hnan as [Hn | [Hn | Hn]]; apply is_nan_eq in Hn; subst.
    - now rewrite !div_nan_l.
    - now rewrite div_nan_r, div_nan_l.
    - now rewrite div_nan_r. }
  unfold f_lambda, arr_mul, flux_inf, flux05, arr_div.
  rewrite !map_map, !nth_error_map, Hi. simpl.
  change (Some (x / c1 / c2)%float = Some nan
          /\ Some (x / c1 / c2 * photflam)%float = Some nan).
  rewrite Hfi, mul_nan_l. split; reflexivity.
Qed.

Lemma nan_propagates_binary64_example :
  nth_error [5.2393%float; nan] 1 = Some nan /\
  (PrimFloat.is_nan nan = true \/ PrimFloat.is_nan 0.8%float = true
   \/ PrimFloat.is_nan 0.915%float = true) /\
  nth_error (flux_inf [5.2393%float; nan] 0.8%float 0.915%float) 1 = Some nan.
Proof.
  assert (Hi : nth_error [5.2393%float; nan] 1 = Some nan) by reflexivity.
  assert (Hn : PrimFloat.is_nan nan = true \/ PrimFloat.is_nan 0.8%float = true
               \/ PrimFloat.is_nan 0.915%float = true)
    by (left; vm_compute; reflexivity).
  split; [exact Hi | split; [exact Hn |]].
  exact (proj1 (@nan_propagates_binary64 [5.2393%float; nan] 0.8%float
                                         0.915%float 1e-18%float nan 1 Hi Hn)).
Defined.

(** *** Positive inputs *)

Lemma shr_1_nonneg (mrs : shr_record) :
  (0 <= shr_m mrs)%Z -> (0 <= shr_m (shr_1 mrs))%Z.
Proof.
  destruct mrs as [m r s]. simpl.
  destruct m as [| [p | p |] | p]; simpl; intros Hm; lia.
Qed.

Lemma iter_pos_shr_1_nonneg (p : positive) (mrs : shr_record) :
  (0 <= shr_m mrs)%Z -> (0 <= shr_m (iter_pos shr_1 p mrs))%Z.
Proof.
  revert mrs. induction p as [p IH | p IH |]; intros mrs Hm; simpl.
  - apply IH, IH. now apply shr_1_nonneg.
  - now apply IH, IH.
  - now apply shr_1_nonneg.
Qed.

Lemma shr_fexp_nonneg (m e : Z) (l : location) :
  (0 <= m)%Z -> (0 <= shr_m (fst (shr_fexp prec emax m e l)))%Z.
Proof.
  intros Hm. unfold shr_fexp, shr.
  assert (H0 : (0 <= shr_m (shr_record_of_loc m l))%Z).
  { destruct l as [| []]; exact Hm. }
  destruct (fexp prec emax (Zdigits2 m + e) - e)%Z; simpl; try exact H0.
  now apply iter_pos_shr_1_nonneg.
Qed.

Lemma round_nearest_even_nonneg (m : Z) (l : location) :
  (0 <= m)%Z -> (0 <= round_nearest_even m l)%Z.
Proof.
  intros Hm. destruct l as [| []]; simpl; try lia.
  destruct (Z.even m); lia.
Qed.

(** Rounding a non-negative significand with a positive sign gives [+0],
    a positive number or [+inf]. *)
Lemma binary_round_aux_nonneg (mz ez : Z) (lz : location) :
  (0 <= mz)%Z -> sf_nonneg (binary_round_aux prec emax false mz ez lz) = true.
Proof.
  intros Hm. unfold binary_round_aux.
  assert (H1 := shr_fexp_nonneg ez lz Hm).
  destruct (shr_fexp prec emax mz ez lz) as [mrs' e']. simpl in H1.
  assert (H2 := shr_fexp_nonneg e' loc_Exact
                  (round_nearest_even_nonneg (loc_of_shr_record mrs') H1)).
  destruct (shr_fexp prec emax _ e' loc_Exact) as [mrs'' e'']. simpl in H2.
  destruct (shr_m mrs'') as [| p | p].
  - reflexivity.
  - destruct (e'' <=? emax - prec)%Z; reflexivity.
  - lia.
Qed.

Lemma SFdiv_core_nonneg (mx my : positive) (ex ey : Z) :
  (0 <= fst (fst (SFdiv_core_binary prec emax (Zpos mx) ex (Zpos my) ey)))%Z.
Proof.
  unfold SFdiv_core_binary.
  set (s := (ex - ey - _)%Z).
  set (m' := match s with
             | Zpos _ => Z.shiftl (Zpos mx) s
             | Z0 => Zpos mx
             | Zneg _ => 0%Z
             end).
  assert (Hm' : (0 <= m')%Z).
  { subst m'. destruct s; try lia. apply Z.shiftl_nonneg. lia. }
  assert (Hq := Z.div_pos m' (Zpos my) Hm' ltac:(lia)).
  unfold Z.div in Hq.
  destruct (Z.div_eucl m' (Zpos my)) as [q r]. exact Hq.
Qed.

Lemma positive_finite_sf (x : float) :
  positive_finite x = true -> exists m e, Prim2SF x = S754_finite false m e.
Proof.
  unfold positive_finite. rewrite andb_true_iff. intros [Hlt Hfin].
  rewrite FloatAxioms.ltb_spec, sf_of_zero in Hlt.
  destruct (Prim2SF x) as [s | s | | s m e] eqn:Hx; simpl in Hlt;
    try discriminate.
  - rewrite not_finite_sf in Hfin by (right; now exists s). discriminate.
  - destruct s; try discriminate. now exists m, e.
Qed.

Lemma sf_nonneg_class (v : float) :
  sf_nonneg (Prim2SF v) = true -> not_nan_nor_negative v = true.
Proof.
  intros Hv. unfold not_nan_nor_negative, PrimFloat.is_nan.
  rewrite FloatAxioms.eqb_spec, FloatAxioms.ltb_spec, sf_of_zero.
  destruct (Prim2SF v) as [s | s | | s m e]; simpl in Hv;
    try discriminate; destruct s; try discriminate.
  - reflexivity.
  - reflexivity.
  - rewrite SFeqb_refl_not_nan by discriminate. reflexivity.
Qed.

Lemma div_keeps_nonneg (x c : float) :
  sf_nonneg (Prim2SF x) = true -> positive_finite c = true ->
  sf_nonneg (Prim2SF (x / c)) = true.
Proof.
  intros Hx Hc. destruct (positive_finite_sf c Hc) as (mc & ec & Hsc).
  rewrite FloatAxioms.div_spec, Hsc. unfold SF64div, SFdiv.
  destruct (Prim2SF x) as [s | s | | s m e]; simpl in Hx;
    try discriminate; destruct s; try discriminate; try reflexivity.
  assert (Hq := SFdiv_core_nonneg m mc e ec).
  destruct (SFdiv_core_binary prec emax (Zpos m) e (Zpos mc) ec)
    as [[mz ez] lz].
  simpl in Hq. now apply binary_round_aux_nonneg.
Qed.

Lemma mul_keeps_nonneg (x c : float) :
  sf_nonneg (Prim2SF x) = true -> positive_finite c = true ->
  sf_nonneg (Prim2SF (x * c)) = true.
Proof.
  intros Hx Hc. destruct (positive_finite_sf c Hc) as (mc & ec & Hsc).
  rewrite FloatAxioms.mul_spec, Hsc. unfold SF64mul, SFmul.
  destruct (Prim2SF x) as [s | s | | s m e]; simpl in Hx;
    try discriminate; destruct s; try discriminate; try reflexivity.
  apply binary_round_aux_nonneg. lia.
Qed.

Lemma positive_finite_nonneg (x : float) :
  positive_finite x = true -> sf_nonneg (Prim2SF x) = true.
Proof.
  intros Hx. destruct (positive_finite_sf x Hx) as (m & e & Hs).
  now rewrite Hs.
Qed.

(** In binary64, with positive finite measured fluxes, correction factors
    and [photflam], no corrected flux and no flux density is [NaN] or
    negative, however the quotients and the product round (they may
    underflow to [0.0] or overflow to [+inf]); so [np.log10] is never
    applied to a negative number or a [NaN]. *)
Theorem positive_chain_binary64
    (raws : ndarray float) (c1 c2 photflam : float) :
  Forall (fun x => positive_finite x = true) raws ->
  positive_finite c1 = true -> positive_finite c2 = true ->
  positive_finite photflam = true ->
  Forall (fun v => not_nan_nor_negative v = true) (flux_inf raws c1 c2) /\
  Forall (fun v => not_nan_nor_negative v = true)
         (f_lambda (flux_inf raws c1 c2) photflam).
Proof.
  intros Hraws Hc1 Hc2 Hpf.
  unfold f_lambda, arr_mul, flux_inf, flux05, arr_div. rewrite !map_map.
  rewrite Forall_forall in Hraws.
  split; apply Forall_map, Forall_forall; intros x Hx;
    apply sf_nonneg_class.
  - change (sf_nonneg (Prim2SF (x / c1 / c2)%float) = true).
    apply div_keeps_nonneg; [| assumption].
    apply div_keeps_nonneg; [| assumption].
    apply positive_finite_nonneg. now apply Hraws.
  - change (sf_nonneg (Prim2SF (x / c1 / c2 * photflam)%float) = true).
    apply mul_keeps_nonneg; [| assumption].
    apply div_keeps_nonneg; [| assumption].
    apply div_keeps_nonneg; [| assumption].
    apply positive_finite_nonneg. now apply Hraws.
Qed.

Lemma positive_chain_binary64_example :
  Forall (fun x => positive_finite x = true)
         [5.2393%float; 7.2935%float; 3.2355%float; 4.9368%float] /\
  positive_finite 0.8%float = true /\ positive_finite 0.915%float = true /\
  positive_finite 1e-18%float = true /\
  Forall (fun v => not_nan_nor_negative v = true)
         (flux_inf [5.2393%float; 7.2935%float; 3.2355%float; 4.9368%float]
                   0.8%float 0.915%float).
Proof.
  assert (Hraws : Forall (fun x => positive_finite x = true)
                    [5.2393%float; 7.2935%float; 3.2355%float; 4.9368%float]).
  { repeat (constructor; [vm_compute; reflexivity |]). constructor. }
  assert (H1 : positive_finite 0.8%float = true) by (vm_compute; reflexivity).
  assert (H2 : positive_finite 0.915%float = true) by (vm_compute; reflexivity).
  assert (H3 : positive_finite 1e-18%float = true) by (vm_compute; reflexivity).
  split; [exact Hraws | split; [exact H1 | split; [exact H2 | split;
    [exact H3 |]]]].
  exact (proj1 (@positive_chain_binary64
                  [5.2393%float; 7.2935%float; 3.2355%float; 4.9368%float]
                  0.8%float 0.915%float 1e-18%float Hraws H1 H2 H3)).
Defined.

(** ** Inputs outside the domain of the logarithm, in binary64 *)

(** The arithmetic after the logarithm, in binary64: [-inf] and [NaN]
    come out as [+inf] and [NaN]. *)
Example log_failure_propagates_binary64 :
  (-2.5 * neg_infinity + 25)%float = infinity /\
  PrimFloat.is_nan (-2.5 * nan + 25)%float = true.
Proof. split; vm_compute; reflexivity. Qed.

Lemma sf_of_neg_infinity : Prim2SF neg_infinity = S754_infinity true.
Proof. vm_compute. reflexivity. Qed.

Lemma non_positive_cases (x : float) :
  (x <=? 0)%float = true ->
  PrimFloat.is_zero x = true \/
  (PrimFloat.is_zero x = false /\ (x <? 0)%float = true).
Proof.
  unfold PrimFloat.is_zero.
  rewrite FloatAxioms.leb_spec, FloatAxioms.ltb_spec, FloatAxioms.eqb_spec.
  change (Prim2SF zero) with (Prim2SF 0%float). rewrite sf_of_zero.
  destruct (Prim2SF x) as [s | s | | s m e]; simpl;
    try discriminate; try (destruct s; try discriminate); auto.
Qed.

Lemma zero_not_negative (x : float) :
  PrimFloat.is_zero x = true -> (x <? 0)%float = false.
Proof.
  intros Hz. destruct (is_zero_sf Hz) as [s Hs].
  rewrite FloatAxioms.ltb_spec, sf_of_zero, Hs. reflexivity.
Qed.

(** A sum, or a difference, with [+inf] on the left is [+inf] or [NaN]. *)
Lemma add_inf_l (x z : float) :
  Prim2SF x = S754_infinity false ->
  Prim2SF (x + z)%float = S754_nan \/
  Prim2SF (x + z)%float = S754_infinity false.
Proof.
  intros Hx. rewrite FloatAxioms.add_spec, Hx. unfold SF64add.
  destruct (Prim2SF z) as [s | [] | | s m e]; simpl; auto.
Qed.

Lemma sub_inf_l (x z : float) :
  Prim2SF x = S754_nan \/ Prim2SF x = S754_infinity false ->
  Prim2SF (x - z)%float = S754_nan \/
  Prim2SF (x - z)%float = S754_infinity false.
Proof.
  intros Hx. rewrite FloatAxioms.sub_spec. unfold SF64sub.
  destruct Hx as [Hx | Hx]; rewrite Hx;
    destruct (Prim2SF z) as [s | [] | | s m e]; simpl; auto.
Qed.

Lemma add_inf_finite (z : float) :
  PrimFloat.is_finite z = true -> (infinity + z)%float = infinity.
Proof.
  intros Hz. apply Prim2SF_inj.
  rewrite FloatAxioms.add_spec, sf_of_infinity. unfold SF64add.
  destruct (Prim2SF z) as [s | s | | s m e] eqn:Hs; try reflexivity.
  - rewrite not_finite_sf in Hz by (right; now exists s). discriminate.
  - rewrite not_finite_sf in Hz by (now left). discriminate.
Qed.

Lemma add_nan_l (z : float) : (nan + z)%float = nan.
Proof.
  apply Prim2SF_inj. rewrite FloatAxioms.add_spec, sf_of_nan. reflexivity.
Qed.

Lemma nan_or_inf_not_finite (v : float) :
  Prim2SF v = S754_nan \/ Prim2SF v = S754_infinity false ->
  PrimFloat.is_finite v = false.
Proof.
  intros [Hv | Hv]; apply not_finite_sf; [now left | right; now exists false].
Qed.

Lemma scaled_log_of_zero : (-2.5 * neg_infinity)%float = infinity.
Proof. vm_compute. reflexivity. Qed.

Lemma scaled_log_of_negative : (-2.5 * nan)%float = nan.
Proof. vm_compute. reflexivity. Qed.

Lemma mags_one {L : Log10 float} (x zp : float) :
  mags [x] zp = [(-2.5 * flog10 x + zp)%float].
Proof. reflexivity. Qed.

Lemma mag_non_positive {L : Log10 float} (x zp : float) :
  log10_outside_domain L -> (x <=? 0)%float = true ->
  PrimFloat.is_finite (-2.5 * flog10 x + zp)%float = false /\
  (PrimFloat.is_finite zp = true ->
   (-2.5 * flog10 x + zp)%float
   = if PrimFloat.is_zero x then infinity else nan).
Proof.
  intros [Hzero Hneg] Hx.
  destruct (non_positive_cases Hx) as [Hz | [Hz Hlt]]; rewrite Hz.
  - rewrite (Hzero x Hz), scaled_log_of_zero. split.
    + apply nan_or_inf_not_finite, add_inf_l, sf_of_infinity.
    + apply add_inf_finite.
  - rewrite (Hneg x Hlt), scaled_log_of_negative, add_nan_l. split.
    + vm_compute. reflexivity.
    + reflexivity.
Qed.

(** C5, amended.  Nothing is raised and nothing is checked for
    [flux_inf <= 0] or [photflam <= 0].  Given that [np.log10] returns
    [-inf] at zero and [NaN] below zero: a corrected flux [x <= 0] makes
    each of its three magnitudes non-finite whatever the zeropoint is, and
    with a finite zeropoint each is [+inf] for [x = 0] and [NaN] for
    [x < 0]; a [photflam] [x <= 0] makes the STMag zeropoint [+inf] for
    [x = 0] and [NaN] for [x < 0], and the ABMag zeropoint non-finite
    whatever [photplam] is. *)
Theorem non_positive_inputs_give_inf_or_nan {L : Log10 float}
    (x zp photplam : float) :
  log10_outside_domain L ->
  (x <=? 0)%float = true ->
  Forall (fun v => PrimFloat.is_finite v = false) (stmags [x] zp) /\
  Forall (fun v => PrimFloat.is_finite v = false) (abmags [x] zp) /\
  Forall (fun v => PrimFloat.is_finite v = false) (vegamags [x] zp) /\
  (PrimFloat.is_finite zp = true ->
   let v := if PrimFloat.is_zero x then infinity else nan in
   stmags [x] zp = [v] /\ abmags [x] zp = [v] /\ vegamags [x] zp = [v]) /\
  zp_stmag x = (if PrimFloat.is_zero x then infinity else nan) /\
  PrimFloat.is_finite (zp_abmag x photplam) = false.
Proof.
  intros HL Hx.
  destruct (mag_non_positive zp HL Hx) as [Hnf Hval].
  unfold stmags, abmags, vegamags. rewrite mags_one.
  repeat split; try (constructor; [exact Hnf | constructor]).
  - now rewrite Hval.
  - now rewrite Hval.
  - now rewrite Hval.
  - destruct HL as [Hzero Hneg]. unfold zp_stmag.
    change ((-2.5 * flog10 x - 21.10)%float
            = if PrimFloat.is_zero x then infinity else nan).
    destruct (non_positive_cases Hx) as [Hz | [Hz Hlt]]; rewrite Hz.
    + rewrite (Hzero x Hz). vm_compute. reflexivity.
    + rewrite (Hneg x Hlt). vm_compute. reflexivity.
  - destruct HL as [Hzero Hneg]. unfold zp_abmag.
    change (PrimFloat.is_finite
              (-2.5 * flog10 x - 5 * flog10 photplam - 2.408)%float = false).
    apply nan_or_inf_not_finite, sub_inf_l, sub_inf_l.
    destruct (non_positive_cases Hx) as [Hz | [Hz Hlt]].
    + right. rewrite (Hzero x Hz). vm_compute. reflexivity.
    + left. rewrite (Hneg x Hlt). vm_compute. reflexivity.
Qed.

(** A function with the two special values of [np.log10], for the
    example below. *)
Local Abbreviation log10_sample :=
  (Build_Log10 (fun x : float =>
                  if (x <? 0)%float then nan
                  else if PrimFloat.is_zero x then neg_infinity
                  else 0%float)).

Lemma log10_sample_outside_domain : log10_outside_domain log10_sample.
Proof.
  split; intros x Hx; cbn [flog10].
  - now rewrite (zero_not_negative Hx), Hx.
  - now rewrite Hx.
Defined.

Lemma non_positive_inputs_give_inf_or_nan_example :
  log10_outside_domain log10_sample /\
  ((-1) <=? 0)%float = true /\
  @stmags _ _ log10_sample [(-1)%float] 25%float = [nan] /\
  @zp_stmag _ _ log10_sample (-1)%float = nan /\
  PrimFloat.is_finite (@zp_abmag _ _ log10_sample (-1)%float 5500%float) = false.
Proof.
  assert (Hx : ((-1) <=? 0)%float = true) by (vm_compute; reflexivity).
  split; [exact log10_sample_outside_domain | split; [exact Hx |]].
  destruct (@non_positive_inputs_give_inf_or_nan log10_sample (-1)%float
              25%float 5500%float log10_sample_outside_domain Hx)
    as (_ & _ & _ & Hfin & Hzp & Hab).
  split; [| split; [exact Hzp | exact Hab]].
  exact (proj1 (Hfin eq_refl)).
Defined.

(** ** Rounding to nearest, from the specification of the kernel's floats

    What rounding does to a significand in the range of the normal
    numbers, for the product, the quotient and the sum. *)

Local Open Scope Z_scope.

Lemma shr_1_spec (m : Z) (r s : bool) :
  0 <= m ->
  shr_1 (Build_shr_record m r s) = Build_shr_record (m / 2) (Z.odd m) (r || s).
Proof.
  intros Hm. destruct m as [| p | p]; [reflexivity | | lia].
  destruct p as [p | p |]; simpl.
  - f_equal. apply Z.div_unique with (r := 1); lia.
  - f_equal. apply Z.div_unique with (r := 0); lia.
  - reflexivity.
Qed.

Lemma iter_pos_nat {A : Type} (f : A -> A) (p : positive) (x : A) :
  iter_pos f p x = Nat.iter (Pos.to_nat p) f x.
Proof.
  revert x. induction p as [p IH | p IH |]; intros x.
  - cbn [iter_pos]. rewrite !IH, Pos2Nat.inj_xI, Nat.iter_succ_r.
    replace (2 * Pos.to_nat p)%nat with (Pos.to_nat p + Pos.to_nat p)%nat by lia.
    now rewrite Nat.iter_add.
  - cbn [iter_pos]. rewrite !IH, Pos2Nat.inj_xO.
    replace (2 * Pos.to_nat p)%nat with (Pos.to_nat p + Pos.to_nat p)%nat by lia.
    now rewrite Nat.iter_add.
  - reflexivity.
Qed.

(** The state after [k+1] right shifts of [(m, false, false)]. *)
Lemma shr_iter_nat (k : nat) (m : Z) :
  0 <= m ->
  Nat.iter (S k) shr_1 (Build_shr_record m false false)
  = Build_shr_record (m / 2 ^ Z.of_nat (S k))
                     (Z.odd (m / 2 ^ Z.of_nat k))
                     (negb (m mod 2 ^ Z.of_nat k =? 0)).
Proof.
  intros Hm. induction k as [| k IH].
  - change (Nat.iter 1 shr_1 ?x) with (shr_1 x).
    rewrite shr_1_spec by assumption.
    change (2 ^ Z.of_nat 1) with 2. change (2 ^ Z.of_nat 0) with 1.
    rewrite Z.div_1_r, Z.mod_1_r. reflexivity.
  - change (Nat.iter (S (S k)) shr_1 ?x) with (shr_1 (Nat.iter (S k) shr_1 x)).
    rewrite IH.
    assert (Hp : 0 < 2 ^ Z.of_nat k) by (apply Z.pow_pos_nonneg; lia).
    rewrite shr_1_spec by (apply Z.div_pos; [assumption | apply Z.pow_pos_nonneg; lia]).
    assert (E1 : 2 ^ Z.of_nat (S k) = 2 ^ Z.of_nat k * 2).
    { rewrite Nat2Z.inj_succ, Z.pow_succ_r by lia. lia. }
    assert (E2 : 2 ^ Z.of_nat (S (S k)) = 2 ^ Z.of_nat (S k) * 2).
    { rewrite (Nat2Z.inj_succ (S k)), Z.pow_succ_r by lia. lia. }
    f_equal.
    + rewrite E2, Z.div_div by lia. reflexivity.
    + (* sticky: m mod 2^(k+1) <> 0 iff odd (m / 2^k) or m mod 2^k <> 0 *)
      rewrite E1.
      rewrite Z.rem_mul_r by lia.
      assert (Hq := Z.mod_pos_bound m (2 ^ Z.of_nat k) Hp).
      assert (Hodd : Z.odd (m / 2 ^ Z.of_nat k) = negb ((m / 2 ^ Z.of_nat k) mod 2 =? 0)).
      { rewrite Zmod_odd. destruct (Z.odd _); reflexivity. }
      rewrite Hodd.
      assert (Hb := Z.mod_pos_bound (m / 2 ^ Z.of_nat k) 2 ltac:(lia)).
      destruct (Z.eqb_spec ((m / 2 ^ Z.of_nat k) mod 2) 0) as [E | E];
      destruct (Z.eqb_spec (m mod 2 ^ Z.of_nat k) 0) as [E' | E'];
      destruct (Z.eqb_spec
                  (m mod 2 ^ Z.of_nat k
                   + 2 ^ Z.of_nat k * ((m / 2 ^ Z.of_nat k) mod 2)) 0)
        as [E'' | E'']; simpl; try reflexivity; exfalso; nia.
Qed.


Lemma digits2_pos_size (p : positive) : digits2_pos p = Pos.size p.
Proof.
  induction p as [p IH | p IH |]; simpl; now rewrite ?IH.
Qed.

Lemma Zdigits2_bounds (M : Z) :
  0 < M -> 2 ^ (Zdigits2 M - 1) <= M < 2 ^ Zdigits2 M.
Proof.
  intros HM. destruct M as [| p | p]; try lia.
  unfold Zdigits2. rewrite digits2_pos_size.
  assert (Hgt := Pos.size_gt p). assert (Hle := Pos.size_le p).
  apply Pos2Z.pos_lt_pos in Hgt. apply Pos2Z.pos_le_pos in Hle.
  rewrite Pos2Z.inj_pow in Hgt, Hle.
  split; [| exact Hgt].
  change (Z.pos p~0) with (2 * Z.pos p) in Hle.
  replace (Z.pos (Pos.size p)) with (Z.succ (Z.pos (Pos.size p) - 1)) in Hle by lia.
  rewrite Z.pow_succ_r in Hle by lia. lia.
Qed.

Lemma Zdigits2_unique (M d : Z) :
  2 ^ (d - 1) <= M < 2 ^ d -> 0 < d -> Zdigits2 M = d.
Proof.
  intros [Hlo Hhi] Hd.
  assert (HM : 0 < M).
  { assert (0 < 2 ^ (d - 1)) by (apply Z.pow_pos_nonneg; lia). lia. }
  destruct (Zdigits2_bounds HM) as [Hlo' Hhi'].
  assert (Hdp : 0 < Zdigits2 M).
  { destruct M; try lia. simpl. lia. }
  destruct (Z.lt_trichotomy (Zdigits2 M) d) as [Hlt | [Heq | Hgt]]; [| exact Heq |].
  - assert (2 ^ Zdigits2 M <= 2 ^ (d - 1)) by (apply Z.pow_le_mono_r; lia). lia.
  - assert (2 ^ d <= 2 ^ (Zdigits2 M - 1)) by (apply Z.pow_le_mono_r; lia). lia.
Qed.

Lemma round_nearest_even_cases (q : Z) (l : location) :
  round_nearest_even q l = q \/ round_nearest_even q l = q + 1.
Proof.
  destruct l as [| []]; simpl; auto. destruct (Z.even q); auto.
Qed.

(** Rounding a significand [M] of [d >= 54] digits in the normal range:
    the result is [q1 * 2 ^ (e + d - 53)] for an integer [q1] of 53 bits (or
    [2 ^ 53]) within half a unit of [M / 2 ^ (d - 53)]. *)
Lemma round_aux_normal (s : bool) (M e d : Z) :
  0 < M ->
  Zdigits2 M = d -> 54 <= d -> -1074 <= d + e - 53 -> d + e - 53 < 970 ->
  exists q1,
    2 ^ 52 <= q1 <= 2 ^ 53 /\
    2 * Z.abs (q1 * 2 ^ (d - 53) - M) <= 2 ^ (d - 53) /\
    binary_round_aux prec emax s M e loc_Exact
    = if q1 <? 2 ^ 53
      then S754_finite s (Z.to_pos q1) (e + d - 53)
      else S754_finite s (2 ^ 52)%positive (e + d - 52).
Proof.
  intros HM Hd Hd54 Hlo Hhi.
  destruct (Zdigits2_bounds HM) as [HMlo HMhi]. rewrite Hd in HMlo, HMhi.
  unfold binary_round_aux, shr_fexp.
  rewrite Hd. unfold fexp, SpecFloat.emin, prec, emax.
  replace (Z.max (d + e - 53) (3 - 1024 - 53) - e) with (d - 53) by lia.
  replace (e + d - 53) with (e + (d - 53)) by lia.
  replace (e + d - 52) with (e + (d - 53) + 1) by lia.
  destruct (d - 53) as [| n | n] eqn:Hn; try lia.
  change (shr (shr_record_of_loc M loc_Exact) e (Z.pos n))
    with (iter_pos shr_1 n (Build_shr_record M false false), e + Z.pos n).
  cbv iota beta.
  rewrite iter_pos_nat.
  destruct (Pos.to_nat n) as [| k] eqn:Hk; [lia |].
  rewrite shr_iter_nat by lia.
  assert (Hkn : Z.of_nat (S k) = Z.pos n) by lia.
  rewrite Hkn.
  set (q := M / 2 ^ Z.pos n).
  assert (Hpow : 2 ^ d = 2 ^ 53 * 2 ^ Z.pos n).
  { rewrite <- Z.pow_add_r by lia. f_equal. lia. }
  assert (Hpow' : 2 ^ (d - 1) = 2 ^ 52 * 2 ^ Z.pos n).
  { rewrite <- Z.pow_add_r by lia. f_equal. lia. }
  assert (Hp : 0 < 2 ^ Z.pos n) by (apply Z.pow_pos_nonneg; lia).
  assert (Hq : 2 ^ 52 <= q < 2 ^ 53).
  { subst q. split.
    - apply Z.div_le_lower_bound; lia.
    - apply Z.div_lt_upper_bound; lia. }
  (* the decomposition M = q * 2^n + b * 2^k + t *)
  set (pk := 2 ^ Z.of_nat k).
  assert (Hpk : 0 < pk) by (apply Z.pow_pos_nonneg; lia).
  assert (Hnk : 2 ^ Z.pos n = pk * 2).
  { rewrite <- Hkn, Nat2Z.inj_succ, Z.pow_succ_r by lia. subst pk. lia. }
  assert (Hdm := Z.div_mod M pk ltac:(lia)).
  assert (Hmb := Z.mod_pos_bound M pk Hpk).
  assert (Hdm2 := Z.div_mod (M / pk) 2 ltac:(lia)).
  assert (Hmb2 := Z.mod_pos_bound (M / pk) 2 ltac:(lia)).
  assert (Hqq : (M / pk) / 2 = q).
  { subst q. rewrite Hnk, Z.div_div by lia. reflexivity. }
  rewrite Hqq in Hdm2.
  assert (Hodd : Z.odd (M / pk) = negb ((M / pk) mod 2 =? 0)).
  { rewrite Zmod_odd. destruct (Z.odd _); reflexivity. }
  rewrite Hodd.
  cbn [shr_m].
  (* the rounded integer *)
  assert (Hround : exists q1,
             round_nearest_even q
               (loc_of_shr_record
                  {| shr_m := q;
                     shr_r := negb ((M / pk) mod 2 =? 0);
                     shr_s := negb (M mod pk =? 0) |}) = q1 /\
             (q1 = q \/ q1 = q + 1) /\
             2 * Z.abs (q1 * 2 ^ Z.pos n - M) <= 2 ^ Z.pos n).
  { destruct (Z.eqb_spec ((M / pk) mod 2) 0) as [Eb | Eb];
    destruct (Z.eqb_spec (M mod pk) 0) as [Et | Et];
    cbn [negb loc_of_shr_record round_nearest_even].
    - exists q. repeat split; auto. nia.
    - exists q. repeat split; auto. nia.
    - destruct (Z.even q).
      + exists q. repeat split; auto. nia.
      + exists (q + 1). repeat split; auto. nia.
    - exists (q + 1). repeat split; auto. nia. }
  destruct Hround as (q1 & Hr & Hq1 & Herr). rewrite Hr.
  exists q1. split; [lia | split; [exact Herr |]].
  destruct (Z.ltb_spec q1 (2 ^ 53)) as [Hlt | Hge].
  - assert (Hdq : Zdigits2 q1 = 53) by (apply Zdigits2_unique; lia).
    rewrite Hdq.
    replace (Z.max (53 + (e + Z.pos n) - 53) (3 - 1024 - 53) - (e + Z.pos n))
      with 0 by lia.
    cbn [shr shr_record_of_loc shr_m].
    destruct q1 as [| mq | mq] eqn:Eq; try lia.
    replace (e + Z.pos n <=? 1024 - 53) with true
      by (symmetry; apply Z.leb_le; lia).
    reflexivity.
  - assert (Hc : q1 = 2 ^ 53) by lia.
    rewrite Hc. change (Zdigits2 (2 ^ 53)) with 54.
    replace (Z.max (54 + (e + Z.pos n) - 53) (3 - 1024 - 53) - (e + Z.pos n))
      with 1 by lia.
    cbn [shr shr_record_of_loc iter_pos].
    change (shr_m (shr_1 {| shr_m := 2 ^ 53; shr_r := false; shr_s := false |}))
      with (2 ^ 52).
    change (2 ^ 52) with (Z.pos (2 ^ 52)%positive) at 1.
    replace (e + Z.pos n + 1 <=? 1024 - 53) with true
      by (symmetry; apply Z.leb_le; lia).
    reflexivity.
Qed.

(** The end of [binary_round_aux]: a rounded significand of 53 bits, or
    [2^53], in the range of the normal exponents. *)
Lemma round_finish (s : bool) (q1 e : Z) :
  2 ^ 52 <= q1 <= 2 ^ 53 -> -1074 <= e -> e < 970 ->
  (let '(mrs, e') := shr_fexp prec emax q1 e loc_Exact in
   match shr_m mrs with
   | Z0 => S754_zero s
   | Zpos m => if e' <=? emax - prec then S754_finite s m e'
               else S754_infinity s
   | Zneg _ => S754_nan
   end)
  = if q1 <? 2 ^ 53
    then S754_finite s (Z.to_pos q1) e
    else S754_finite s (2 ^ 52)%positive (e + 1).
Proof.
  intros Hq Hlo Hhi. unfold shr_fexp, fexp, SpecFloat.emin, prec, emax.
  destruct (Z.ltb_spec q1 (2 ^ 53)) as [Hlt | Hge].
  - assert (Hdq : Zdigits2 q1 = 53) by (apply Zdigits2_unique; lia).
    rewrite Hdq.
    replace (Z.max (53 + e - 53) (3 - 1024 - 53) - e) with 0 by lia.
    cbn [shr shr_record_of_loc shr_m].
    destruct q1 as [| mq | mq] eqn:Eq; try lia.
    replace (e <=? 1024 - 53) with true by (symmetry; apply Z.leb_le; lia).
    reflexivity.
  - assert (Hc : q1 = 2 ^ 53) by lia.
    rewrite Hc. change (Zdigits2 (2 ^ 53)) with 54.
    replace (Z.max (54 + e - 53) (3 - 1024 - 53) - e) with 1 by lia.
    cbn [shr shr_record_of_loc iter_pos].
    change (shr_m (shr_1 {| shr_m := 2 ^ 53; shr_r := false; shr_s := false |}))
      with (2 ^ 52).
    change (2 ^ 52) with (Z.pos (2 ^ 52)%positive) at 1.
    replace (e + 1 <=? 1024 - 53) with true by (symmetry; apply Z.leb_le; lia).
    reflexivity.
Qed.

Lemma new_location_spec (n k : Z) :
  new_location n k
  = if k =? 0 then loc_Exact else loc_Inexact (2 * k ?= n).
Proof.
  unfold new_location.
  destruct (Z.even n) eqn:Hev;
    unfold new_location_even, new_location_odd;
    destruct (Z.eqb_spec k 0) as [Hk | Hk]; try reflexivity.
  f_equal.
  assert (Hodd : Z.odd n = true) by (rewrite <- Z.negb_even, Hev; reflexivity).
  apply Z.odd_spec in Hodd. destruct Hodd as [j Hj].
  destruct (Z.compare_spec (2 * k + 1) n) as [E | E | E];
    symmetry; [apply Z.compare_lt_iff | apply Z.compare_lt_iff
               | apply Z.compare_gt_iff]; lia.
Qed.

(** Rounding the quotient [q] and remainder [r] of a division by [m2]: the
    result is within half a unit of [q + r / m2]. *)
Lemma round_aux_quotient (s : bool) (q r m2 e : Z) :
  2 ^ 52 <= q < 2 ^ 54 -> 0 <= r < m2 ->
  -1074 <= e -> e < 968 ->
  exists q1 k,
    (k = 0 \/ k = 1) /\
    2 ^ 52 <= q1 <= 2 ^ 53 /\
    2 ^ (52 + k) <= q /\
    2 * Z.abs (q1 * 2 ^ k * m2 - (q * m2 + r)) <= 2 ^ k * m2 /\
    binary_round_aux prec emax s q e (new_location m2 r)
    = if q1 <? 2 ^ 53
      then S754_finite s (Z.to_pos q1) (e + k)
      else S754_finite s (2 ^ 52)%positive (e + k + 1).
Proof.
  intros Hq Hr Hlo Hhi.
  rewrite new_location_spec.
  unfold binary_round_aux.
  destruct (Z.ltb_spec q (2 ^ 53)) as [Hlt | Hge].
  - (* 53 digits: no shift *)
    assert (Hdq : Zdigits2 q = 53) by (apply Zdigits2_unique; lia).
    unfold shr_fexp at 1. rewrite Hdq.
    unfold fexp at 1, SpecFloat.emin, prec, emax.
    replace (Z.max (53 + e - 53) (3 - 1024 - 53) - e) with 0 by lia.
    cbn [shr].
    assert (Hround : exists q1,
               round_nearest_even
                 (shr_m (shr_record_of_loc q
                           (if r =? 0 then loc_Exact
                            else loc_Inexact (2 * r ?= m2))))
                 (loc_of_shr_record
                    (shr_record_of_loc q
                       (if r =? 0 then loc_Exact
                        else loc_Inexact (2 * r ?= m2)))) = q1 /\
               (q1 = q \/ q1 = q + 1) /\
               2 * Z.abs (q1 * m2 - (q * m2 + r)) <= m2).
    { destruct (Z.eqb_spec r 0) as [Er | Er].
      - exists q. cbn [shr_m shr_record_of_loc loc_of_shr_record
                       round_nearest_even].
        repeat split; auto. nia.
      - destruct (Z.compare_spec (2 * r) m2) as [E | E | E];
          cbn [shr_m shr_record_of_loc loc_of_shr_record round_nearest_even].
        + destruct (Z.even q).
          * exists q. repeat split; auto. nia.
          * exists (q + 1). repeat split; auto. nia.
        + exists q. repeat split; auto. nia.
        + exists (q + 1). repeat split; auto. nia. }
    destruct Hround as (q1 & Hr1 & Hq1 & Herr). rewrite Hr1.
    exists q1, 0. split; [now left |].
    split; [lia | split; [simpl; lia | split]].
    + change (2 ^ 0) with 1. rewrite !Z.mul_1_r, Z.mul_1_l. exact Herr.
    + fold prec emax. rewrite Z.add_0_r.
      apply (round_finish s (q1 := q1) (e := e)); lia.
  - (* 54 digits: one shift *)
    assert (Hdq : Zdigits2 q = 54) by (apply Zdigits2_unique; lia).
    unfold shr_fexp at 1. rewrite Hdq.
    unfold fexp at 1, SpecFloat.emin, prec, emax.
    replace (Z.max (54 + e - 53) (3 - 1024 - 53) - e) with 1 by lia.
    cbn [shr iter_pos].
    assert (Hdm := Z.div_mod q 2 ltac:(lia)).
    assert (Hmb := Z.mod_pos_bound q 2 ltac:(lia)).
    assert (Hodd : Z.odd q = negb (q mod 2 =? 0)).
    { rewrite Zmod_odd. destruct (Z.odd _); reflexivity. }
    assert (Hround : exists q1,
               round_nearest_even
                 (shr_m (shr_1 (shr_record_of_loc q
                           (if r =? 0 then loc_Exact
                            else loc_Inexact (2 * r ?= m2)))))
                 (loc_of_shr_record
                    (shr_1 (shr_record_of_loc q
                       (if r =? 0 then loc_Exact
                        else loc_Inexact (2 * r ?= m2))))) = q1 /\
               (q1 = q / 2 \/ q1 = q / 2 + 1) /\
               2 * Z.abs (q1 * 2 * m2 - (q * m2 + r)) <= 2 * m2).
    { destruct (Z.eqb_spec r 0) as [Er | Er];
        [| destruct (2 * r ?= m2)];
        cbn [shr_record_of_loc]; rewrite shr_1_spec by lia;
        rewrite Hodd; cbn [shr_m loc_of_shr_record orb];
        destruct (Z.eqb_spec (q mod 2) 0) as [Eb | Eb];
        cbn [negb round_nearest_even];
        try (destruct (Z.even (q / 2)));
        try (exists (q / 2); repeat split; auto; nia);
        try (exists (q / 2 + 1); repeat split; auto; nia). }
    destruct Hround as (q1 & Hr1 & Hq1 & Herr). rewrite Hr1.
    exists q1, 1. split; [now right |].
    assert (Hq2 : 2 ^ 52 <= q / 2 < 2 ^ 53).
    { split; [apply Z.div_le_lower_bound | apply Z.div_lt_upper_bound]; lia. }
    split; [lia | split; [simpl; lia | split]].
    + change (2 ^ 1) with 2. exact Herr.
    + fold prec emax.
      apply (round_finish s (q1 := q1) (e := e + 1)); lia.
Qed.


(** The product of two normal numbers, away from overflow and underflow:
    a normal number within [2^-53] of the exact product, relatively. *)
Lemma SFmul_normal (s1 s2 : bool) (m1 m2 : positive) (e1 e2 : Z) :
  2 ^ 52 <= Z.pos m1 < 2 ^ 53 -> 2 ^ 52 <= Z.pos m2 < 2 ^ 53 ->
  -1074 <= e1 + e2 + 52 -> e1 + e2 + 53 < 970 ->
  exists (q : positive) (er : Z),
    SFmul prec emax (S754_finite s1 m1 e1) (S754_finite s2 m2 e2)
    = S754_finite (xorb s1 s2) q er /\
    2 ^ 52 <= Z.pos q < 2 ^ 53 /\
    e1 + e2 + 52 <= er <= e1 + e2 + 54 /\
    2 ^ 53 * Z.abs (Z.pos q * 2 ^ (er - (e1 + e2)) - Z.pos m1 * Z.pos m2)
    <= Z.pos m1 * Z.pos m2.
Proof.
  intros Hm1 Hm2 Hlo Hhi. unfold SFmul.
  set (M := Z.pos (m1 * m2)).
  assert (HM : M = Z.pos m1 * Z.pos m2) by (subst M; apply Pos2Z.inj_mul).
  assert (HMpos : 0 < M) by lia.
  destruct (Zdigits2_bounds HMpos) as [Hdlo Hdhi].
  assert (Hd : 105 <= Zdigits2 M <= 106).
  { split.
    - destruct (Z.lt_ge_cases (Zdigits2 M) 105) as [Hlt | Hge]; [| exact Hge].
      exfalso.
      assert (H : 2 ^ Zdigits2 M <= 2 ^ 104) by (apply Z.pow_le_mono_r; lia).
      change (2 ^ 104) with (2 ^ 52 * 2 ^ 52) in H. nia.
    - destruct (Z.lt_ge_cases 106 (Zdigits2 M)) as [Hlt | Hge]; [| lia].
      exfalso.
      assert (H : 2 ^ 106 <= 2 ^ (Zdigits2 M - 1))
        by (apply Z.pow_le_mono_r; lia).
      change (2 ^ 106) with (2 ^ 53 * 2 ^ 53) in H. nia. }
  destruct (@round_aux_normal (xorb s1 s2) M (e1 + e2) (Zdigits2 M)
              HMpos eq_refl)
    as (q1 & Hq1 & Herr & Hres); try lia.
  rewrite Hres. rewrite <- HM.
  set (n := Zdigits2 M - 53) in *.
  assert (Hn : 0 <= n) by (subst n; lia).
  assert (Hpn : 0 < 2 ^ n) by (apply Z.pow_pos_nonneg; lia).
  assert (HMn : 2 ^ 52 * 2 ^ n <= M).
  { rewrite <- Z.pow_add_r by lia.
    replace (52 + n) with (Zdigits2 M - 1) by (subst n; lia). exact Hdlo. }
  destruct (Z.ltb_spec q1 (2 ^ 53)) as [Hlt | Hge].
  - exists (Z.to_pos q1), (e1 + e2 + Zdigits2 M - 53).
    split; [reflexivity |]. rewrite Z2Pos.id by lia.
    split; [lia | split; [lia |]].
    replace (e1 + e2 + Zdigits2 M - 53 - (e1 + e2)) with n by (subst n; lia).
    nia.
  - exists (2 ^ 52)%positive, (e1 + e2 + Zdigits2 M - 52).
    split; [reflexivity |].
    change (Z.pos (2 ^ 52)) with (2 ^ 52).
    split; [lia | split; [lia |]].
    replace (e1 + e2 + Zdigits2 M - 52 - (e1 + e2)) with (n + 1)
      by (subst n; lia).
    rewrite Z.pow_add_r by lia. change (2 ^ 1) with 2.
    assert (Hc : q1 = 2 ^ 53) by lia. subst q1.
    change (2 ^ 53) with (2 ^ 52 * 2) in Herr. nia.
Qed.

(** The quotient of two positive normal numbers, away from overflow and
    underflow: a normal number within [2^-53] of the exact quotient,
    relatively. *)
Lemma SFdiv_normal (m1 m2 : positive) (e1 e2 : Z) :
  2 ^ 52 <= Z.pos m1 < 2 ^ 53 -> 2 ^ 52 <= Z.pos m2 < 2 ^ 53 ->
  -1074 <= e1 - e2 - 53 -> e1 - e2 - 53 < 968 ->
  exists (q : positive) (er : Z),
    SFdiv prec emax (S754_finite false m1 e1) (S754_finite false m2 e2)
    = S754_finite false q er /\
    2 ^ 52 <= Z.pos q < 2 ^ 53 /\
    e1 - e2 - 53 <= er <= e1 - e2 - 51 /\
    2 ^ 53 * Z.abs (Z.pos q * 2 ^ (er - (e1 - e2 - 53)) * Z.pos m2
                    - Z.pos m1 * 2 ^ 53)
    <= Z.pos m1 * 2 ^ 53.
Proof.
  intros Hm1 Hm2 Hlo Hhi. unfold SFdiv, SFdiv_core_binary. cbn [xorb].
  assert (Hd1 : Zdigits2 (Z.pos m1) = 53) by (apply Zdigits2_unique; lia).
  assert (Hd2 : Zdigits2 (Z.pos m2) = 53) by (apply Zdigits2_unique; lia).
  rewrite Hd1, Hd2. unfold fexp, SpecFloat.emin. 
  replace (Z.min (Z.max (53 + e1 - (53 + e2) - prec) (3 - emax - prec))
                 (e1 - e2))
    with (e1 - e2 - 53) by (unfold prec, emax; lia).
  replace (e1 - e2 - (e1 - e2 - 53)) with 53 by lia.
  rewrite Z.shiftl_mul_pow2 by lia.
  assert (Hdiv := Z.div_eucl_eq (Z.pos m1 * 2 ^ 53) (Z.pos m2) ltac:(lia)).
  assert (Hmod := Z.mod_pos_bound (Z.pos m1 * 2 ^ 53) (Z.pos m2) ltac:(lia)).
  unfold Z.modulo in Hmod.
  destruct (Z.div_eucl (Z.pos m1 * 2 ^ 53) (Z.pos m2)) as [q r].
  assert (Hq : 2 ^ 52 <= q < 2 ^ 54) by nia.
  destruct (@round_aux_quotient false q r (Z.pos m2) (e1 - e2 - 53)
              Hq Hmod Hlo Hhi)
    as (q1 & k & Hk & Hq1 & Hqk & Herr & Hres).
  rewrite Hres.
  assert (Hpk : 0 < 2 ^ k) by (apply Z.pow_pos_nonneg; lia).
  assert (Hbig : 2 ^ 52 * (2 ^ k * Z.pos m2) <= Z.pos m1 * 2 ^ 53).
  { rewrite Z.pow_add_r in Hqk by lia. nia. }
  replace (q * Z.pos m2 + r) with (Z.pos m1 * 2 ^ 53) in Herr by lia.
  destruct (Z.ltb_spec q1 (2 ^ 53)) as [Hlt | Hge].
  - exists (Z.to_pos q1), (e1 - e2 - 53 + k).
    split; [reflexivity |]. rewrite Z2Pos.id by lia.
    split; [lia | split; [lia |]].
    replace (e1 - e2 - 53 + k - (e1 - e2 - 53)) with k by lia.
    nia.
  - exists (2 ^ 52)%positive, (e1 - e2 - 53 + k + 1).
    split; [reflexivity |].
    change (Z.pos (2 ^ 52)) with (2 ^ 52).
    split; [lia | split; [lia |]].
    replace (e1 - e2 - 53 + k + 1 - (e1 - e2 - 53)) with (k + 1) by lia.
    rewrite Z.pow_add_r by lia. change (2 ^ 1) with 2.
    assert (Hc : q1 = 2 ^ 53) by lia. subst q1.
    change (2 ^ 53) with (2 ^ 52 * 2) in Herr at 1. nia.
Qed.


Lemma iter_xO_pow2 (m d : positive) :
  Z.pos (Pos.iter xO m d) = Z.pos m * 2 ^ Z.pos d.
Proof.
  induction d as [| d IH] using Pos.peano_ind.
  - simpl Pos.iter. rewrite Pos2Z.inj_xO. change (2 ^ 1) with 2. lia.
  - rewrite Pos.iter_succ, Pos2Z.inj_xO, IH, Pos2Z.inj_succ, Z.pow_succ_r by lia.
    lia.
Qed.

Lemma shl_align_spec (m : positive) (e e' : Z) :
  e' <= e ->
  Z.pos (fst (shl_align m e e')) = Z.pos m * 2 ^ (e - e') /\
  snd (shl_align m e e') = e'.
Proof.
  intros Hle. unfold shl_align.
  destruct (e' - e) as [| d | d] eqn:Hd; try lia; cbn [fst snd].
  - replace (e - e') with 0 by lia. split; lia.
  - replace (e - e') with (Z.pos d) by lia. split; [apply iter_xO_pow2 | lia].
Qed.

(** Rounding a significand that is already 53 bits long changes nothing. *)
Lemma round_aux_exact (s : bool) (q e : Z) :
  2 ^ 52 <= q < 2 ^ 53 -> -1074 <= e -> e < 970 ->
  binary_round_aux prec emax s q e loc_Exact = S754_finite s (Z.to_pos q) e.
Proof.
  intros Hq Hlo Hhi. unfold binary_round_aux.
  assert (Hdq : Zdigits2 q = 53) by (apply Zdigits2_unique; lia).
  unfold shr_fexp at 1. rewrite Hdq.
  unfold fexp at 1, SpecFloat.emin, prec, emax.
  replace (Z.max (53 + e - 53) (3 - 1024 - 53) - e) with 0 by lia.
  cbn [shr shr_record_of_loc shr_m loc_of_shr_record round_nearest_even].
  fold prec emax.
  rewrite (round_finish s (q1 := q) (e := e)) by lia.
  replace (q <? 2 ^ 53) with true by (symmetry; apply Z.ltb_lt; lia).
  reflexivity.
Qed.

(** [binary_round] on a positive integer [p] at exponent [e]: exact when
    [p] has at most 53 bits, within half a unit of the last place
    otherwise. *)
Lemma binary_round_spec (s : bool) (p : positive) (e : Z) :
  -1022 <= e -> Zdigits2 (Z.pos p) + e - 53 < 969 ->
  exists (q : positive) (er : Z),
    binary_round prec emax s p e = S754_finite s q er /\
    2 ^ 52 <= Z.pos q < 2 ^ 53 /\
    Zdigits2 (Z.pos p) + e - 53 <= er <= Zdigits2 (Z.pos p) + e - 52 /\
    ((er <= e /\ Z.pos q = Z.pos p * 2 ^ (e - er)) \/
     (e <= er /\
      2 ^ 53 * Z.abs (Z.pos q * 2 ^ (er - e) - Z.pos p) <= Z.pos p)).
Proof.
  intros Hlo Hhi. unfold binary_round.
  set (d := Zdigits2 (Z.pos p)) in *.
  assert (Hdpos : 0 < d) by (subst d; simpl; lia).
  destruct (Zdigits2_bounds (M := Z.pos p) ltac:(lia)) as [Hdlo Hdhi].
  fold d in Hdlo, Hdhi.
  change (Z.pos (digits2_pos p)) with d.
  unfold fexp, SpecFloat.emin. 
  replace (Z.max (d + e - prec) (3 - emax - prec)) with (d + e - 53)
    by (unfold prec, emax; lia).
  destruct (Z.le_gt_cases d 53) as [Hle | Hgt].
  - (* exact *)
    destruct (@shl_align_spec p e (d + e - 53) ltac:(lia)) as [Hm He].
    destruct (shl_align p e (d + e - 53)) as [mz ez]. cbn [fst snd] in Hm, He.
    subst ez.
    replace (e - (d + e - 53)) with (53 - d) in Hm by lia.
    assert (Hpow : 2 ^ 52 <= Z.pos mz < 2 ^ 53).
    { rewrite Hm.
      assert (H52 : 2 ^ 52 = 2 ^ (d - 1) * 2 ^ (53 - d))
        by (rewrite <- Z.pow_add_r by lia; f_equal; lia).
      assert (H53 : 2 ^ 53 = 2 ^ d * 2 ^ (53 - d))
        by (rewrite <- Z.pow_add_r by lia; f_equal; lia).
      assert (0 < 2 ^ (53 - d)) by (apply Z.pow_pos_nonneg; lia).
      rewrite H52, H53. nia. }
    rewrite round_aux_exact by lia.
    exists mz, (d + e - 53). rewrite Pos2Z.id.
    split; [reflexivity | split; [exact Hpow | split; [lia |]]].
    left. split; [lia |].
    replace (e - (d + e - 53)) with (53 - d) by lia. exact Hm.
  - (* rounded *)
    assert (Hsh : shl_align p e (d + e - 53) = (p, e)).
    { unfold shl_align. destruct (d + e - 53 - e) eqn:E; try reflexivity. lia. }
    rewrite Hsh.
    destruct (@round_aux_normal s (Z.pos p) e d ltac:(lia) eq_refl)
      as (q1 & Hq1 & Herr & Hres); try lia.
    rewrite Hres.
    set (n := d - 53) in *.
    assert (Hpn : 0 < 2 ^ n) by (apply Z.pow_pos_nonneg; lia).
    assert (HMn : 2 ^ 52 * 2 ^ n <= Z.pos p).
    { rewrite <- Z.pow_add_r by lia.
      replace (52 + n) with (d - 1) by (subst n; lia). exact Hdlo. }
    destruct (Z.ltb_spec q1 (2 ^ 53)) as [Hlt | Hge].
    + exists (Z.to_pos q1), (e + d - 53).
      split; [reflexivity |]. rewrite Z2Pos.id by lia.
      split; [lia | split; [lia |]].
      right. split; [lia |].
      replace (e + d - 53 - e) with n by (subst n; lia). nia.
    + exists (2 ^ 52)%positive, (e + d - 52).
      split; [reflexivity |].
      change (Z.pos (2 ^ 52)) with (2 ^ 52).
      split; [lia | split; [lia |]].
      right. split; [lia |].
      replace (e + d - 52 - e) with (n + 1) by (subst n; lia).
      rewrite Z.pow_add_r by lia. change (2 ^ 1) with 2.
      assert (Hc : q1 = 2 ^ 53) by lia. subst q1.
      change (2 ^ 53) with (2 ^ 52 * 2) in Herr. nia.
Qed.

Lemma Zdigits2_le (M k : Z) : 0 < M -> M < 2 ^ k -> 0 <= k -> Zdigits2 M <= k.
Proof.
  intros HM Hlt Hk. destruct (Zdigits2_bounds HM) as [Hlo _].
  destruct (Z.le_gt_cases (Zdigits2 M) k) as [H | H]; [exact H |].
  assert (2 ^ k <= 2 ^ (Zdigits2 M - 1)) by (apply Z.pow_le_mono_r; lia).
  lia.
Qed.

Lemma binary_normalize_spec (S ez : Z) :
  S <> 0 -> -1022 <= ez -> Zdigits2 S + ez - 53 < 969 ->
  exists (s : bool) (q : positive) (er : Z),
    binary_normalize prec emax S ez false = S754_finite s q er /\
    2 ^ 52 <= Z.pos q < 2 ^ 53 /\
    ez - 52 <= er <= Zdigits2 S + ez - 52 /\
    ((er <= ez /\ sign_Z s * Z.pos q = S * 2 ^ (ez - er)) \/
     (ez <= er /\
      2 ^ 53 * Z.abs (sign_Z s * Z.pos q * 2 ^ (er - ez) - S) <= Z.abs S)).
Proof.
  intros HS Hlo Hhi. unfold binary_normalize.
  destruct S as [| p | p]; [contradiction | |].
  - destruct (@binary_round_spec false p ez Hlo Hhi)
      as (q & er & Hres & Hq & Her & Hcase).
    exists false, q, er. cbn [sign_Z].
    assert (Hd : 0 < Zdigits2 (Z.pos p)) by (simpl; lia).
    split; [exact Hres | split; [exact Hq | split; [lia |]]].
    destruct Hcase as [[H1 H2] | [H1 H2]]; [left | right]; split; try lia.
  - change (Zdigits2 (Z.neg p)) with (Zdigits2 (Z.pos p)) in *.
    destruct (@binary_round_spec true p ez Hlo Hhi)
      as (q & er & Hres & Hq & Her & Hcase).
    exists true, q, er. cbn [sign_Z].
    assert (Hd : 0 < Zdigits2 (Z.pos p)) by (simpl; lia).
    split; [exact Hres | split; [exact Hq | split; [lia |]]].
    destruct Hcase as [[H1 H2] | [H1 H2]]; [left | right]; split; try lia.
Qed.

(** The sum of two normal numbers of any signs. *)
Lemma SFadd_normal (s1 s2 : bool) (m1 m2 : positive) (e1 e2 : Z) :
  2 ^ 52 <= Z.pos m1 < 2 ^ 53 -> 2 ^ 52 <= Z.pos m2 < 2 ^ 53 ->
  -1022 <= e1 -> -1022 <= e2 -> e1 < 967 -> e2 < 967 ->
  let ez := Z.min e1 e2 in
  let S := sign_Z s1 * Z.pos m1 * 2 ^ (e1 - ez)
           + sign_Z s2 * Z.pos m2 * 2 ^ (e2 - ez) in
  (S = 0 /\
   SFadd prec emax (S754_finite s1 m1 e1) (S754_finite s2 m2 e2)
   = S754_zero false) \/
  (exists (s : bool) (q : positive) (er : Z),
    SFadd prec emax (S754_finite s1 m1 e1) (S754_finite s2 m2 e2)
    = S754_finite s q er /\
    2 ^ 52 <= Z.pos q < 2 ^ 53 /\
    ez - 52 <= er <= Z.max e1 e2 + 2 /\
    ((er <= ez /\ sign_Z s * Z.pos q = S * 2 ^ (ez - er)) \/
     (ez <= er /\
      2 ^ 53 * Z.abs (sign_Z s * Z.pos q * 2 ^ (er - ez) - S) <= Z.abs S))).
Proof.
  intros Hm1 Hm2 Hl1 Hl2 Hh1 Hh2 ez S.
  unfold SFadd. fold ez.
  destruct (@shl_align_spec m1 e1 ez ltac:(subst ez; lia)) as [HM1 _].
  destruct (@shl_align_spec m2 e2 ez ltac:(subst ez; lia)) as [HM2 _].
  assert (HS : cond_Zopp s1 (Z.pos (fst (shl_align m1 e1 ez)))
               + cond_Zopp s2 (Z.pos (fst (shl_align m2 e2 ez))) = S).
  { rewrite HM1, HM2. subst S. unfold sign_Z, cond_Zopp.
    destruct s1, s2; lia. }
  rewrite HS.
  destruct (Z.eq_dec S 0) as [E0 | En0].
  - left. split; [exact E0 |]. rewrite E0. reflexivity.
  - right.
    assert (Hp1 : 0 < 2 ^ (e1 - ez)) by (apply Z.pow_pos_nonneg; subst ez; lia).
    assert (Hp2 : 0 < 2 ^ (e2 - ez)) by (apply Z.pow_pos_nonneg; subst ez; lia).
    set (k := Z.max e1 e2 - ez).
    assert (Hk : 0 <= k) by (subst k ez; lia).
    assert (Hk1 : 2 ^ (e1 - ez) <= 2 ^ k)
      by (apply Z.pow_le_mono_r; subst k ez; lia).
    assert (Hk2 : 2 ^ (e2 - ez) <= 2 ^ k)
      by (apply Z.pow_le_mono_r; subst k ez; lia).
    assert (Hbound : Z.abs S < 2 ^ (54 + k)).
    { rewrite Z.pow_add_r by lia. change (2 ^ 54) with (2 ^ 53 * 2).
      subst S. unfold sign_Z. destruct s1, s2; nia. }
    assert (Hdig : Zdigits2 S <= 54 + k).
    { assert (Hd : Zdigits2 S = Zdigits2 (Z.abs S)) by (destruct S; reflexivity).
      rewrite Hd. apply Zdigits2_le; lia. }
    destruct (@binary_normalize_spec S ez En0 ltac:(subst ez; lia)
                ltac:(subst k; lia))
      as (s & q & er & Hres & Hq & Her & Hcase).
    exists s, q, er.
    split; [exact Hres | split; [exact Hq | split; [subst k; lia |]]].
    exact Hcase.
Qed.

Lemma SFsub_add_opp (x y : spec_float) :
  SFsub prec emax x y = SFadd prec emax x (SFopp y).
Proof.
  destruct x as [sx | sx | | sx mx ex], y as [sy | sy | | sy my ey];
    try reflexivity;
    destruct sx, sy; reflexivity.
Qed.

(** ** Neighbouring fluxes with one magnitude *)

Lemma sf_of_minus_2_5 :
  Prim2SF (-2.5)%float = S754_finite true 5629499534213120 (-51).
Proof. vm_compute. reflexivity. Qed.













(** A function with the values of [np.log10] at [1.0] and at the next
    binary64 number, [0] and [9.64327466553287e-17], for the example
    below. *)
Local Abbreviation log10_near_one :=
  (Build_Log10 (fun x : float =>
                  if (x =? 1)%float then 0%float
                  else 0x1.bcb7b1526e50dp-54%float)).



(** ** The value of a product, a quotient and a sum

    Away from overflow and underflow each operation returns the real
    result with a relative error of at most [2^-53]. *)

Lemma sf_of_2_m200 :
  Prim2SF 0x1p-200%float = S754_finite false 4503599627370496 (-252).
Proof. vm_compute. reflexivity. Qed.

Lemma sf_of_2_200 :
  Prim2SF 0x1p200%float = S754_finite false 4503599627370496 148.
Proof. vm_compute. reflexivity. Qed.

Lemma moderate_normal (x : float) :
  moderate x = true -> normal_between (-252) 148 x.
Proof.
  unfold moderate, normal_between. rewrite andb_true_iff.
  rewrite FloatAxioms.leb_spec, FloatAxioms.leb_spec, sf_of_2_m200, sf_of_2_200.
  assert (Hv := Prim2SF_valid x).
  destruct (Prim2SF x) as [s | s | | s m e]; try (destruct s);
    intros [Hlo Hhi]; try discriminate.
  unfold valid_binary, bounded, canonical_mantissa, fexp, SpecFloat.emin,
    prec, emax in Hv.
  apply andb_true_iff in Hv. destruct Hv as [Hc _].
  apply Z.eqb_eq in Hc.
  assert (Hdig := Zdigits2_bounds (M := Z.pos m) ltac:(lia)).
  cbn [Zdigits2] in Hdig.
  unfold SFleb, SFcompare in Hlo, Hhi.
  assert (He : -252 <= e <= 148).
  { destruct (Z.compare_spec (-252) e) as [E | E | E]; try discriminate Hlo;
    destruct (Z.compare_spec e 148) as [E' | E' | E']; try discriminate Hhi;
      lia. }
  exists m, e. split; [reflexivity | split; [| exact He]].
  assert (Hd : Z.pos (digits2_pos m) = 53) by lia.
  rewrite Hd in Hdig. exact Hdig.
Qed.

Local Open Scope R_scope.


Lemma pow2_pos (e : Z) : 0 < powerRZ 2 e.
Proof. apply powerRZ_lt. lra. Qed.

Lemma IZR_pow2 (k : Z) : (0 <= k)%Z -> IZR (2 ^ k) = powerRZ 2 k.
Proof.
  intros Hk. destruct k as [| p | p]; [reflexivity | | lia].
  simpl powerRZ. rewrite pow_IZR, positive_nat_Z. reflexivity.
Qed.

Lemma IZR_2_53 : IZR (2 ^ 53) = 2 ^ 53.
Proof. rewrite pow_IZR. reflexivity. Qed.

Lemma value_normal (x : float) (m : positive) (e : Z) :
  Prim2SF x = S754_finite false m e ->
  value x = IZR (Z.pos m) * powerRZ 2 e /\ 0 < value x.
Proof.
  intros Hx. unfold value. rewrite Hx. cbn [sf_value sign_Z].
  rewrite Z.mul_1_l.
  assert (Hm : 0 < IZR (Z.pos m)) by (apply IZR_lt; lia).
  assert (He := pow2_pos e).
  split; [reflexivity | nra].
Qed.

(** The binary64 product of two positive normal numbers, away from
    overflow and underflow. *)
Lemma value_mul (a1 b1 a2 b2 : Z) (x y : float) :
  normal_between a1 b1 x -> normal_between a2 b2 y ->
  (-1074 <= a1 + a2 + 52)%Z -> (b1 + b2 + 53 < 970)%Z ->
  normal_between (a1 + a2 + 52) (b1 + b2 + 54) (x * y)%float /\
  Rabs (value (x * y)%float - value x * value y)
  <= / 2 ^ 53 * (value x * value y).
Proof.
  intros (m1 & e1 & Hx & Hm1 & He1) (m2 & e2 & Hy & Hm2 & He2) Hlo Hhi.
  destruct (@SFmul_normal false false m1 m2 e1 e2 Hm1 Hm2 ltac:(lia) ltac:(lia))
    as (q & er & Hres & Hq & Her & Herr).
  assert (Hxy : Prim2SF (x * y)%float = S754_finite false q er).
  { rewrite FloatAxioms.mul_spec, Hx, Hy. exact Hres. }
  split; [exists q, er; repeat split; try assumption; lia |].
  destruct (@value_normal _ _ _ Hx) as [Vx _]. destruct (@value_normal _ _ _ Hy) as [Vy _].
  destruct (@value_normal _ _ _ Hxy) as [Vxy _]. rewrite Vx, Vy, Vxy.
  set (k := (er - (e1 + e2))%Z) in *.
  assert (Hk : (0 <= k)%Z) by (subst k; lia).
  apply IZR_le in Herr.
  rewrite !mult_IZR, abs_IZR, minus_IZR, !mult_IZR, (IZR_pow2 Hk), IZR_2_53
    in Herr.
  replace er with (k + (e1 + e2))%Z by (subst k; lia).
  rewrite !powerRZ_add by lra.
  set (A := IZR (Z.pos m1)) in *. set (B := IZR (Z.pos m2)) in *.
  set (Q := IZR (Z.pos q) * powerRZ 2 k) in *.
  assert (HE1 := pow2_pos e1). assert (HE2 := pow2_pos e2).
  set (E1 := powerRZ 2 e1) in *. set (E2 := powerRZ 2 e2) in *.
  replace (IZR (Z.pos q) * (powerRZ 2 k * (E1 * E2)) - A * E1 * (B * E2))
    with ((Q - A * B) * (E1 * E2)) by (subst Q; ring).
  rewrite Rabs_mult, (Rabs_pos_eq (E1 * E2)) by nra.
  assert (HP : 0 < 2 ^ 53) by (apply pow_lt; lra).
  assert (Hab : Rabs (Q - A * B) <= / 2 ^ 53 * (A * B)).
  { apply Rmult_le_reg_l with (r := 2 ^ 53); [exact HP |].
    rewrite <- Rmult_assoc, Rinv_r, Rmult_1_l by lra. exact Herr. }
  replace (/ 2 ^ 53 * (A * E1 * (B * E2)))
    with (/ 2 ^ 53 * (A * B) * (E1 * E2)) by ring.
  apply Rmult_le_compat_r; [nra | exact Hab].
Qed.

(** The binary64 quotient of two positive normal numbers, away from
    overflow and underflow. *)
Lemma value_div (a1 b1 a2 b2 : Z) (x y : float) :
  normal_between a1 b1 x -> normal_between a2 b2 y ->
  (-1074 <= a1 - b2 - 53)%Z -> (b1 - a2 - 53 < 968)%Z ->
  normal_between (a1 - b2 - 53) (b1 - a2 - 51) (x / y)%float /\
  Rabs (value (x / y)%float * value y - value x) <= / 2 ^ 53 * value x.
Proof.
  intros (m1 & e1 & Hx & Hm1 & He1) (m2 & e2 & Hy & Hm2 & He2) Hlo Hhi.
  destruct (@SFdiv_normal m1 m2 e1 e2 Hm1 Hm2 ltac:(lia) ltac:(lia))
    as (q & er & Hres & Hq & Her & Herr).
  assert (Hxy : Prim2SF (x / y)%float = S754_finite false q er).
  { rewrite FloatAxioms.div_spec, Hx, Hy. exact Hres. }
  split; [exists q, er; repeat split; try assumption; lia |].
  destruct (@value_normal _ _ _ Hx) as [Vx _]. destruct (@value_normal _ _ _ Hy) as [Vy _].
  destruct (@value_normal _ _ _ Hxy) as [Vxy _]. rewrite Vx, Vy, Vxy.
  set (k := (er - (e1 - e2 - 53))%Z) in *.
  assert (Hk : (0 <= k)%Z) by (subst k; lia).
  apply IZR_le in Herr.
  rewrite !mult_IZR, abs_IZR, minus_IZR, !mult_IZR, (IZR_pow2 Hk), IZR_2_53
    in Herr.
  assert (Hpe1 : powerRZ 2 e1
                 = 2 ^ 53 * (powerRZ 2 (e1 - e2 - 53) * powerRZ 2 e2)).
  { change (2 ^ 53) with (powerRZ 2 53).
    rewrite <- !powerRZ_add by lra. f_equal. lia. }
  assert (Hper : powerRZ 2 er = powerRZ 2 k * powerRZ 2 (e1 - e2 - 53)).
  { rewrite <- powerRZ_add by lra. f_equal. subst k. lia. }
  rewrite Hpe1, Hper.
  set (A := IZR (Z.pos m1)) in *. set (B := IZR (Z.pos m2)) in *.
  set (Q := IZR (Z.pos q) * powerRZ 2 k) in *.
  assert (HE := pow2_pos (e1 - e2 - 53)). assert (HE2 := pow2_pos e2).
  set (E := powerRZ 2 (e1 - e2 - 53)) in *. set (E2 := powerRZ 2 e2) in *.
  replace (IZR (Z.pos q) * (powerRZ 2 k * E) * (B * E2)
           - A * (2 ^ 53 * (E * E2)))
    with ((Q * B - A * 2 ^ 53) * (E * E2)) by (subst Q; ring).
  rewrite Rabs_mult, (Rabs_pos_eq (E * E2)) by nra.
  assert (HP : 0 < 2 ^ 53) by (apply pow_lt; lra).
  assert (Hab : Rabs (Q * B - A * 2 ^ 53) <= A).
  { apply Rmult_le_reg_l with (r := 2 ^ 53); [exact HP |].
    rewrite (Rmult_comm (2 ^ 53) A). exact Herr. }
  replace (/ 2 ^ 53 * (A * (2 ^ 53 * (E * E2)))) with (A * (E * E2))
    by (field; lra).
  apply Rmult_le_compat_r; [nra | exact Hab].
Qed.

Lemma normal_between_pos (a b : Z) (x : float) :
  normal_between a b x -> 0 < value x.
Proof.
  intros (m & e & Hx & _). exact (proj2 (@value_normal _ _ _ Hx)).
Qed.

Lemma Rabs_le_bounds (a b : R) : Rabs a <= b -> - b <= a <= b.
Proof.
  unfold Rabs. destruct (Rcase_abs a); lra.
Qed.



(** ** Products and sums of signed normal numbers *)

Lemma sign_Z_abs (s : bool) (z : Z) : Z.abs (sign_Z s * z) = Z.abs z.
Proof. destruct s; unfold sign_Z; lia. Qed.

Lemma sign_Z_xorb (s1 s2 : bool) :
  sign_Z (xorb s1 s2) = (sign_Z s1 * sign_Z s2)%Z.
Proof. destruct s1, s2; reflexivity. Qed.

Lemma sf_regular_weaken (a b a' b' : Z) (X : spec_float) :
  sf_regular a b X -> (a' <= a)%Z -> (b <= b')%Z -> sf_regular a' b' X.
Proof.
  destruct X as [s | s | | s m e]; simpl; try tauto. intros [Hm He] Ha Hb.
  split; [exact Hm | lia].
Qed.

Lemma sf_value_bound (a b : Z) (X : spec_float) :
  sf_regular a b X -> Rabs (sf_value X) <= powerRZ 2 (b + 53).
Proof.
  assert (Hpos := pow2_pos (b + 53)).
  destruct X as [s | s | | s m e]; simpl; try tauto;
    try (intros _; rewrite Rabs_R0; lra).
  intros [Hm He].
  rewrite Rabs_mult, <- abs_IZR, sign_Z_abs, (Rabs_pos_eq (powerRZ 2 e))
    by (left; apply pow2_pos).
  replace (b + 53)%Z with (53 + (b - e) + e)%Z by lia.
  rewrite powerRZ_add by lra.
  assert (He' := pow2_pos e).
  apply Rmult_le_compat_r; [lra |].
  rewrite <- IZR_pow2 by lia.
  apply IZR_le. rewrite Z.abs_eq by lia.
  rewrite Z.pow_add_r by lia.
  assert (0 < 2 ^ (b - e))%Z by (apply Z.pow_pos_nonneg; lia). nia.
Qed.

(** An integer error of relative size [2^-53], at a common power of two. *)
Lemma scaled_error (Qz Sz : Z) (E : R) :
  0 < E ->
  (2 ^ 53 * Z.abs (Qz - Sz) <= Z.abs Sz)%Z ->
  Rabs (IZR Qz * E - IZR Sz * E) <= / 2 ^ 53 * Rabs (IZR Sz * E).
Proof.
  intros HE Herr. apply IZR_le in Herr.
  rewrite mult_IZR, !abs_IZR, minus_IZR, IZR_2_53 in Herr.
  replace (IZR Qz * E - IZR Sz * E) with ((IZR Qz - IZR Sz) * E) by ring.
  rewrite !Rabs_mult, (Rabs_pos_eq E) by lra.
  assert (HP : 0 < 2 ^ 53) by (apply pow_lt; lra).
  rewrite <- Rmult_assoc. apply Rmult_le_compat_r; [lra |].
  apply Rmult_le_reg_l with (r := 2 ^ 53); [exact HP |].
  rewrite <- Rmult_assoc, Rinv_r, Rmult_1_l by lra. exact Herr.
Qed.

Lemma sf_mul_regular (a1 b1 a2 b2 : Z) (X Y : spec_float) :
  sf_regular a1 b1 X -> sf_regular a2 b2 Y ->
  (-1074 <= a1 + a2 + 52)%Z -> (b1 + b2 + 53 < 970)%Z ->
  sf_regular (a1 + a2 + 52) (b1 + b2 + 54) (SFmul prec emax X Y) /\
  Rabs (sf_value (SFmul prec emax X Y) - sf_value X * sf_value Y)
  <= / 2 ^ 53 * Rabs (sf_value X * sf_value Y).
Proof.
  intros HX HY Hlo Hhi.
  assert (Hz : forall r : R, Rabs (0 - r * 0) <= / 2 ^ 53 * Rabs (r * 0)).
  { intros r. rewrite Rmult_0_r, Rminus_0_r, Rabs_R0. lra. }
  assert (Hz' : forall r : R, Rabs (0 - 0 * r) <= / 2 ^ 53 * Rabs (0 * r)).
  { intros r. rewrite Rmult_0_l, Rminus_0_r, Rabs_R0. lra. }
  destruct X as [s1 | s1 | | s1 m1 e1], Y as [s2 | s2 | | s2 m2 e2];
    simpl in HX, HY; try contradiction;
    try (split; [exact I | cbn [SFmul sf_value]; auto]).
  destruct HX as [Hm1 He1], HY as [Hm2 He2].
  destruct (@SFmul_normal s1 s2 m1 m2 e1 e2 Hm1 Hm2 ltac:(lia) ltac:(lia))
    as (q & er & Hres & Hq & Her & Herr).
  rewrite Hres. split; [simpl; split; [exact Hq | lia] |].
  cbn [sf_value].
  set (k := (er - (e1 + e2))%Z) in *.
  assert (Hk : (0 <= k)%Z) by (subst k; lia).
  replace (IZR (sign_Z s1 * Z.pos m1) * powerRZ 2 e1
           * (IZR (sign_Z s2 * Z.pos m2) * powerRZ 2 e2))
    with (IZR (sign_Z (xorb s1 s2) * (Z.pos m1 * Z.pos m2))
          * powerRZ 2 (e1 + e2)).
  2:{ rewrite sign_Z_xorb, powerRZ_add, !mult_IZR by lra. ring. }
  replace (IZR (sign_Z (xorb s1 s2) * Z.pos q) * powerRZ 2 er)
    with (IZR (sign_Z (xorb s1 s2) * (Z.pos q * 2 ^ k))
          * powerRZ 2 (e1 + e2)).
  2:{ replace er with (k + (e1 + e2))%Z by (subst k; lia).
      rewrite (powerRZ_add 2 k) by lra.
      rewrite !mult_IZR, IZR_pow2 by lia. ring. }
  apply scaled_error; [apply pow2_pos |].
  rewrite <- Z.mul_sub_distr_l, !sign_Z_abs.
  rewrite (Z.abs_eq (Z.pos m1 * Z.pos m2)) by lia. exact Herr.
Qed.

Lemma sf_add_regular (a b : Z) (X Y : spec_float) :
  sf_regular a b X -> sf_regular a b Y ->
  (-1022 <= a)%Z -> (b < 967)%Z ->
  sf_regular (a - 52) (b + 2) (SFadd prec emax X Y) /\
  Rabs (sf_value (SFadd prec emax X Y) - (sf_value X + sf_value Y))
  <= / 2 ^ 53 * Rabs (sf_value X + sf_value Y).
Proof.
  intros HX HY Hlo Hhi.
  assert (HP : 0 < / 2 ^ 53) by (apply Rinv_0_lt_compat, pow_lt; lra).
  assert (Hexact : forall r : R, Rabs (r - r) <= / 2 ^ 53 * Rabs r).
  { intros r. unfold Rminus. rewrite Rplus_opp_r, Rabs_R0.
    assert (H := Rabs_pos r). nra. }
  destruct X as [s1 | s1 | | s1 m1 e1], Y as [s2 | s2 | | s2 m2 e2];
    simpl in HX, HY; try contradiction.
  - split; [destruct s1, s2; exact I |].
    replace (sf_value (SFadd prec emax (S754_zero s1) (S754_zero s2)))
      with 0 by (destruct s1, s2; reflexivity).
    cbn [sf_value]. rewrite Rplus_0_r. apply Hexact.
  - cbn [SFadd]. split; [simpl; split; [tauto | lia] |].
    cbn [sf_value]. rewrite Rplus_0_l. apply Hexact.
  - cbn [SFadd]. split; [simpl; split; [tauto | lia] |].
    cbn [sf_value]. rewrite Rplus_0_r. apply Hexact.
  - destruct HX as [Hm1 He1], HY as [Hm2 He2].
    set (ez := Z.min e1 e2).
    assert (Hsum : sf_value (S754_finite s1 m1 e1)
                   + sf_value (S754_finite s2 m2 e2)
                   = IZR (sign_Z s1 * Z.pos m1 * 2 ^ (e1 - ez)
                          + sign_Z s2 * Z.pos m2 * 2 ^ (e2 - ez))
                     * powerRZ 2 ez).
    { cbn [sf_value].
      rewrite plus_IZR, !(mult_IZR _ (2 ^ _)), !IZR_pow2 by (subst ez; lia).
      replace e1 with ((e1 - ez) + ez)%Z at 1 by lia.
      replace e2 with ((e2 - ez) + ez)%Z at 1 by lia.
      rewrite !powerRZ_add by lra. ring. }
    rewrite Hsum.
    destruct (@SFadd_normal s1 s2 m1 m2 e1 e2 Hm1 Hm2
                ltac:(lia) ltac:(lia) ltac:(lia) ltac:(lia))
      as [[HS0 Hres] | (s & q & er & Hres & Hq & Her & Hcase)];
      fold ez in HS0 || fold ez in Her, Hcase.
    + rewrite Hres, HS0. split; [exact I |].
      cbn [sf_value]. rewrite Rmult_0_l. apply Hexact.
    + rewrite Hres. split; [simpl; split; [exact Hq | subst ez; lia] |].
      cbn [sf_value].
      set (S := (sign_Z s1 * Z.pos m1 * 2 ^ (e1 - ez)
                 + sign_Z s2 * Z.pos m2 * 2 ^ (e2 - ez))%Z) in *.
      destruct Hcase as [[Hle Heq] | [Hle Herr]].
      * replace (IZR (sign_Z s * Z.pos q) * powerRZ 2 er)
          with (IZR S * powerRZ 2 ez); [apply Hexact |].
        rewrite Heq, mult_IZR, IZR_pow2 by lia.
        replace ez with ((ez - er) + er)%Z at 1 by lia.
        rewrite powerRZ_add by lra. ring.
      * replace (IZR (sign_Z s * Z.pos q) * powerRZ 2 er)
          with (IZR (sign_Z s * Z.pos q * 2 ^ (er - ez)) * powerRZ 2 ez).
        2:{ rewrite (mult_IZR _ (2 ^ _)), IZR_pow2 by lia.
            replace er with ((er - ez) + ez)%Z at 2 by lia.
            rewrite powerRZ_add by lra. ring. }
        apply scaled_error; [apply pow2_pos | exact Herr].
Qed.

Lemma sf_opp_regular (a b : Z) (X : spec_float) :
  sf_regular a b X ->
  sf_regular a b (SFopp X) /\ sf_value (SFopp X) = - sf_value X.
Proof.
  destruct X as [s | s | | s m e]; simpl; try tauto.
  - intros _. split; [exact I | lra].
  - intros H. split; [exact H |].
    destruct s; cbn [negb sign_Z];
      rewrite !mult_IZR; simpl IZR; ring.
Qed.

Lemma sf_sub_regular (a b : Z) (X Y : spec_float) :
  sf_regular a b X -> sf_regular a b Y ->
  (-1022 <= a)%Z -> (b < 967)%Z ->
  sf_regular (a - 52) (b + 2) (SFsub prec emax X Y) /\
  Rabs (sf_value (SFsub prec emax X Y) - (sf_value X - sf_value Y))
  <= / 2 ^ 53 * Rabs (sf_value X - sf_value Y).
Proof.
  intros HX HY Hlo Hhi. rewrite SFsub_add_opp.
  destruct (@sf_opp_regular a b Y HY) as [HY' Hv].
  destruct (@sf_add_regular a b X (SFopp Y) HX HY' Hlo Hhi) as [Hr Herr].
  split; [exact Hr |]. rewrite Hv in Herr. exact Herr.
Qed.

(** ** The accuracy of the zeropoint and magnitude formulas *)

Lemma value_of_sf (x : float) (s : bool) (m : positive) (e : Z) :
  Prim2SF x = S754_finite s m e ->
  value x = IZR (sign_Z s * Z.pos m) * powerRZ 2 e.
Proof. intros H. unfold value. now rewrite H. Qed.

Lemma value_mul_regular (a1 b1 a2 b2 : Z) (x y : float) :
  regular a1 b1 x -> regular a2 b2 y ->
  (-1074 <= a1 + a2 + 52)%Z -> (b1 + b2 + 53 < 970)%Z ->
  regular (a1 + a2 + 52) (b1 + b2 + 54) (x * y)%float /\
  Rabs (value (x * y)%float - value x * value y)
  <= / 2 ^ 53 * Rabs (value x * value y).
Proof.
  unfold regular, value. rewrite FloatAxioms.mul_spec. apply sf_mul_regular.
Qed.

Lemma value_add_regular (a b : Z) (x y : float) :
  regular a b x -> regular a b y -> (-1022 <= a)%Z -> (b < 967)%Z ->
  regular (a - 52) (b + 2) (x + y)%float /\
  Rabs (value (x + y)%float - (value x + value y))
  <= / 2 ^ 53 * Rabs (value x + value y).
Proof.
  unfold regular, value. rewrite FloatAxioms.add_spec. apply sf_add_regular.
Qed.

Lemma value_sub_regular (a b : Z) (x y : float) :
  regular a b x -> regular a b y -> (-1022 <= a)%Z -> (b < 967)%Z ->
  regular (a - 52) (b + 2) (x - y)%float /\
  Rabs (value (x - y)%float - (value x - value y))
  <= / 2 ^ 53 * Rabs (value x - value y).
Proof.
  unfold regular, value. rewrite FloatAxioms.sub_spec. apply sf_sub_regular.
Qed.

Lemma regular_weaken (a b a' b' : Z) (x : float) :
  regular a b x -> (a' <= a)%Z -> (b <= b')%Z -> regular a' b' x.
Proof. apply sf_regular_weaken. Qed.

Lemma sf_of_512 :
  Prim2SF 512%float = S754_finite false 4503599627370496 (-43).
Proof. vm_compute. reflexivity. Qed.

(** A small number is zero or normal, and below [1024] in absolute
    value. *)
Lemma small_regular (x : float) :
  small x = true -> regular (-252) (-43) x /\ Rabs (value x) <= 1024.
Proof.
  intros Hs.
  assert (Hr : regular (-252) (-43) x).
  { revert Hs. unfold small, regular. rewrite orb_true_iff, andb_true_iff.
    intros [Hz | [Hlo Hhi]].
    - destruct (@is_zero_sf x Hz) as [s Hs]. now rewrite Hs.
    - revert Hlo Hhi.
      rewrite !FloatAxioms.leb_spec, FloatAxioms.abs_spec, sf_of_2_m200,
        sf_of_512.
      assert (Hv := Prim2SF_valid x).
      destruct (Prim2SF x) as [s | s | | s m e]; cbn [SFabs];
        intros Hlo Hhi; try discriminate.
      unfold valid_binary, bounded, canonical_mantissa, fexp, SpecFloat.emin,
        prec, emax in Hv.
      apply andb_true_iff in Hv. destruct Hv as [Hc _].
      apply Z.eqb_eq in Hc.
      assert (Hdig := Zdigits2_bounds (M := Z.pos m) ltac:(lia)).
      cbn [Zdigits2] in Hdig.
      unfold SFleb, SFcompare in Hlo, Hhi.
      assert (He : (-252 <= e <= -43)%Z).
      { destruct (Z.compare_spec (-252) e) as [E | E | E];
          try discriminate Hlo;
        destruct (Z.compare_spec e (-43)) as [E' | E' | E'];
          try discriminate Hhi; lia. }
      cbn [sf_regular]. split; [| exact He].
      assert (Hd : Z.pos (digits2_pos m) = 53%Z) by lia.
      rewrite Hd in Hdig. exact Hdig. }
  split; [exact Hr |].
  replace 1024 with (powerRZ 2 (-43 + 53)) by (simpl; lra).
  exact (@sf_value_bound _ _ _ Hr).
Qed.

Lemma sf_of_21_10 :
  Prim2SF 21.10%float = S754_finite false 5939122008594842 (-48).
Proof. vm_compute. reflexivity. Qed.

Lemma sf_of_2_408 :
  Prim2SF 2.408%float = S754_finite false 5422333951354077 (-51).
Proof. vm_compute. reflexivity. Qed.

Lemma sf_of_5 : Prim2SF 5%float = S754_finite false 5629499534213120 (-50).
Proof. vm_compute. reflexivity. Qed.

Lemma value_minus_2_5 : value (-2.5)%float = -2.5.
Proof.
  rewrite (@value_of_sf _ _ _ _ sf_of_minus_2_5). cbn [sign_Z].
  change (powerRZ 2 (-51)) with (/ 2 ^ 51). simpl Z.mul. lra.
Qed.

Lemma value_5 : value 5%float = 5.
Proof.
  rewrite (@value_of_sf _ _ _ _ sf_of_5). cbn [sign_Z].
  change (powerRZ 2 (-50)) with (/ 2 ^ 50). simpl Z.mul. lra.
Qed.

Lemma value_21_10 : Rabs (value 21.10%float - 21.10) <= / 2 ^ 49.
Proof.
  rewrite (@value_of_sf _ _ _ _ sf_of_21_10). cbn [sign_Z].
  change (powerRZ 2 (-48)) with (/ 2 ^ 48). simpl Z.mul.
  apply Rabs_le. lra.
Qed.

Lemma value_2_408 : Rabs (value 2.408%float - 2.408) <= / 2 ^ 52.
Proof.
  rewrite (@value_of_sf _ _ _ _ sf_of_2_408). cbn [sign_Z].
  change (powerRZ 2 (-51)) with (/ 2 ^ 51). simpl Z.mul.
  apply Rabs_le. lra.
Qed.

Lemma regular_minus_2_5 : regular (-51) (-50) (-2.5)%float.
Proof. unfold regular. rewrite sf_of_minus_2_5. simpl. lia. Qed.

Lemma regular_5 : regular (-51) (-50) 5%float.
Proof. unfold regular. rewrite sf_of_5. simpl. lia. Qed.

Lemma regular_21_10 : regular (-400) (-30) 21.10%float.
Proof. unfold regular. rewrite sf_of_21_10. simpl. lia. Qed.

Lemma regular_2_408 : regular (-400) (-30) 2.408%float.
Proof. unfold regular. rewrite sf_of_2_408. simpl. lia. Qed.

Lemma Rabs_bound_err (r v B u : R) :
  0 <= u -> Rabs (r - v) <= u * Rabs v -> Rabs v <= B ->
  - (u * B) <= r - v <= u * B.
Proof.
  intros Hu Herr Hv. apply Rabs_le_bounds.
  apply Rle_trans with (1 := Herr). now apply Rmult_le_compat_l.
Qed.

(** The product of a coefficient of the formulas ([-2.5] or [5]) and a
    logarithm. *)
Lemma scaled_log_accuracy (c l : float) :
  regular (-51) (-50) c -> Rabs (value c) <= 5 -> small l = true ->
  regular (-400) (-30) (c * l)%float /\
  - (5120 * / 2 ^ 53) <= value (c * l)%float - value c * value l
  <= 5120 * / 2 ^ 53.
Proof.
  intros Hc Hcv Hl. destruct (@small_regular l Hl) as [Hr Hlv].
  destruct (@value_mul_regular _ _ _ _ c l Hc Hr ltac:(lia) ltac:(lia))
    as [Hreg Herr].
  split; [apply (@regular_weaken _ _ _ _ _ Hreg); lia |].
  assert (Hb : Rabs (value c * value l) <= 5120).
  { rewrite Rabs_mult.
    assert (H1 := Rabs_pos (value c)). assert (H2 := Rabs_pos (value l)). nra. }
  assert (Hu : 0 <= / 2 ^ 53)
    by (left; apply Rinv_0_lt_compat, pow_lt; lra).
  assert (H := @Rabs_bound_err _ _ _ _ Hu Herr Hb). lra.
Qed.

Lemma sum_accuracy (a b : Z) (x y : float) (B : R) :
  regular a b x -> regular a b y -> (-1022 <= a)%Z -> (b < 967)%Z ->
  Rabs (value x + value y) <= B ->
  regular (a - 52) (b + 2) (x + y)%float /\
  - (/ 2 ^ 53 * B) <= value (x + y)%float - (value x + value y)
  <= / 2 ^ 53 * B.
Proof.
  intros Hx Hy Ha Hb' Hb.
  destruct (@value_add_regular _ _ x y Hx Hy Ha Hb') as [Hreg Herr].
  split; [exact Hreg |].
  assert (Hu : 0 <= / 2 ^ 53)
    by (left; apply Rinv_0_lt_compat, pow_lt; lra).
  exact (@Rabs_bound_err _ _ _ _ Hu Herr Hb).
Qed.

Lemma difference_accuracy (a b : Z) (x y : float) (B : R) :
  regular a b x -> regular a b y -> (-1022 <= a)%Z -> (b < 967)%Z ->
  Rabs (value x - value y) <= B ->
  regular (a - 52) (b + 2) (x - y)%float /\
  - (/ 2 ^ 53 * B) <= value (x - y)%float - (value x - value y)
  <= / 2 ^ 53 * B.
Proof.
  intros Hx Hy Ha Hb' Hb.
  destruct (@value_sub_regular _ _ x y Hx Hy Ha Hb') as [Hreg Herr].
  split; [exact Hreg |].
  assert (Hu : 0 <= / 2 ^ 53)
    by (left; apply Rinv_0_lt_compat, pow_lt; lra).
  exact (@Rabs_bound_err _ _ _ _ Hu Herr Hb).
Qed.

(** The magnitude formula, on a logarithm [l] and a zeropoint [zp] of
    ordinary size. *)
Lemma magnitude_accuracy (l zp : float) :
  small l = true -> small zp = true ->
  Rabs (value (-2.5 * l + zp)%float - (-2.5 * value l + value zp))
  <= / 2 ^ 39.
Proof.
  intros Hl Hzp.
  destruct (@small_regular l Hl) as [_ Hlv].
  destruct (@small_regular zp Hzp) as [Hrz Hzv].
  assert (Hc : Rabs (value (-2.5)%float) <= 5).
  { rewrite value_minus_2_5. apply Rabs_le. lra. }
  destruct (@scaled_log_accuracy _ _ regular_minus_2_5 Hc Hl) as [Hrt Ht].
  rewrite value_minus_2_5 in Ht.
  apply Rabs_le_bounds in Hlv, Hzv.
  assert (Hb : Rabs (value (-2.5 * l)%float + value zp) <= 6145).
  { apply Rabs_le. lra. }
  destruct (@sum_accuracy (-400) (-30) (-2.5 * l)%float zp 6145 Hrt
              ltac:(apply (@regular_weaken _ _ _ _ _ Hrz); lia)
              ltac:(lia) ltac:(lia) Hb) as [_ Hs].
  apply Rabs_le. lra.
Qed.

(** The STMag zeropoint formula. *)
Lemma zp_stmag_accuracy (l : float) :
  small l = true ->
  Rabs (value (-2.5 * l - 21.10)%float - (-2.5 * value l - 21.10))
  <= / 2 ^ 39.
Proof.
  intros Hl.
  destruct (@small_regular l Hl) as [_ Hlv].
  assert (Hc : Rabs (value (-2.5)%float) <= 5).
  { rewrite value_minus_2_5. apply Rabs_le. lra. }
  destruct (@scaled_log_accuracy _ _ regular_minus_2_5 Hc Hl) as [Hrt Ht].
  rewrite value_minus_2_5 in Ht.
  apply Rabs_le_bounds in Hlv.
  assert (H21 := @Rabs_le_bounds _ _ value_21_10).
  assert (Hb : Rabs (value (-2.5 * l)%float - value 21.10%float) <= 5143).
  { apply Rabs_le. lra. }
  destruct (@difference_accuracy (-400) (-30) (-2.5 * l)%float 21.10%float
              5143 Hrt regular_21_10 ltac:(lia) ltac:(lia) Hb) as [_ Hs].
  apply Rabs_le. lra.
Qed.

(** The ABMag zeropoint formula. *)
Lemma zp_abmag_accuracy (l1 l2 : float) :
  small l1 = true -> small l2 = true ->
  Rabs (value (-2.5 * l1 - 5 * l2 - 2.408)%float
        - (-2.5 * value l1 - 5 * value l2 - 2.408))
  <= / 2 ^ 38.
Proof.
  intros Hl1 Hl2.
  destruct (@small_regular l1 Hl1) as [_ Hv1].
  destruct (@small_regular l2 Hl2) as [_ Hv2].
  assert (Hc1 : Rabs (value (-2.5)%float) <= 5).
  { rewrite value_minus_2_5. apply Rabs_le. lra. }
  assert (Hc2 : Rabs (value 5%float) <= 5).
  { rewrite value_5. apply Rabs_le. lra. }
  destruct (@scaled_log_accuracy _ _ regular_minus_2_5 Hc1 Hl1) as [Hr1 Ht1].
  destruct (@scaled_log_accuracy _ _ regular_5 Hc2 Hl2) as [Hr2 Ht2].
  rewrite value_minus_2_5 in Ht1. rewrite value_5 in Ht2.
  apply Rabs_le_bounds in Hv1, Hv2.
  assert (Hc := @Rabs_le_bounds _ _ value_2_408).
  assert (Hb1 : Rabs (value (-2.5 * l1)%float - value (5 * l2)%float) <= 7682).
  { apply Rabs_le. lra. }
  destruct (@difference_accuracy (-400) (-30) (-2.5 * l1)%float (5 * l2)%float
              7682 Hr1 Hr2 ltac:(lia) ltac:(lia) Hb1) as [Hrd Hd].
  assert (Hb2 : Rabs (value (-2.5 * l1 - 5 * l2)%float - value 2.408%float)
                <= 7686).
  { apply Rabs_le. lra. }
  destruct (@difference_accuracy (-452) (-28) (-2.5 * l1 - 5 * l2)%float
              2.408%float 7686 Hrd
              ltac:(apply (@regular_weaken _ _ _ _ _ regular_2_408); lia)
              ltac:(lia) ltac:(lia) Hb2) as [_ Hz].
  apply Rabs_le. lra.
Qed.

(** The quotient form of [value_div]. *)
Lemma value_div_quotient (a1 b1 a2 b2 : Z) (x y : float) :
  normal_between a1 b1 x -> normal_between a2 b2 y ->
  (-1074 <= a1 - b2 - 53)%Z -> (b1 - a2 - 53 < 968)%Z ->
  Rabs (value (x / y)%float - value x / value y)
  <= / 2 ^ 53 * (value x / value y).
Proof.
  intros Hx Hy Hlo Hhi.
  destruct (@value_div _ _ _ _ x y Hx Hy Hlo Hhi) as [_ Herr].
  assert (Hvy := @normal_between_pos _ _ _ Hy).
  replace (value (x / y)%float - value x / value y)
    with ((value (x / y)%float * value y - value x) * / value y)
    by (field; lra).
  assert (Hi : 0 < / value y) by now apply Rinv_0_lt_compat.
  rewrite Rabs_mult, (Rabs_pos_eq (/ value y)) by lra.
  unfold Rdiv. rewrite <- Rmult_assoc.
  apply Rmult_le_compat_r; [lra | exact Herr].
Qed.

(** With a logarithm accurate to [eps], the magnitude is the formula's,
    to within [2.5 eps] and the rounding of two operations. *)
Lemma magnitude_close_to_formula (l zp : float) (t eps : R) :
  small l = true -> small zp = true -> Rabs (value l - t) <= eps ->
  Rabs (value (-2.5 * l + zp)%float - (-2.5 * t + value zp))
  <= 2.5 * eps + / 2 ^ 39.
Proof.
  intros Hl Hzp He.
  assert (H := magnitude_accuracy l zp Hl Hzp).
  apply Rabs_le_bounds in H, He. apply Rabs_le. lra.
Qed.

Lemma zp_stmag_close_to_formula (l : float) (t eps : R) :
  small l = true -> Rabs (value l - t) <= eps ->
  Rabs (value (-2.5 * l - 21.10)%float - (-2.5 * t - 21.10))
  <= 2.5 * eps + / 2 ^ 39.
Proof.
  intros Hl He.
  assert (H := zp_stmag_accuracy l Hl).
  apply Rabs_le_bounds in H, He. apply Rabs_le. lra.
Qed.

Lemma zp_abmag_close_to_formula (l1 l2 : float) (t1 t2 eps : R) :
  small l1 = true -> small l2 = true ->
  Rabs (value l1 - t1) <= eps -> Rabs (value l2 - t2) <= eps ->
  Rabs (value (-2.5 * l1 - 5 * l2 - 2.408)%float
        - (-2.5 * t1 - 5 * t2 - 2.408))
  <= 7.5 * eps + / 2 ^ 38.
Proof.
  intros Hl1 Hl2 He1 He2.
  assert (H := zp_abmag_accuracy l1 l2 Hl1 Hl2).
  apply Rabs_le_bounds in H, He1, He2. apply Rabs_le. lra.
Qed.



(** ** The aperture correction chain *)

(** C2.  For every raw flux and every pair of correction factors the chain
    returns [flux_medium = flux_raw / c1] (the array [flux05]) and
    [flux_inf = flux_medium / c2], entry by entry, the quotients being the
    binary64 ones.  For a raw flux and factors between [2^-200] and
    [2^200] each binary64 quotient is the real quotient to within a
    relative error of [2^-53].  In particular [flux_raw = 10], [c1 = 0.5],
    [c2 = 0.9] give [flux_medium = 20] and
    [flux_inf = 22.222222222222221], within [0.001] of [22.222]. *)
Theorem aperture_chain_quotients (raws : ndarray float) (c1 c2 : float) :
  flux05 raws c1 = map (fun x => (x / c1)%float) raws /\
  flux_inf raws c1 c2 = map (fun m => (m / c2)%float) (flux05 raws c1) /\
  flux_inf raws c1 c2 = map (fun x => (x / c1 / c2)%float) raws /\
  (forall x : float,
      moderate x = true -> moderate c1 = true -> moderate c2 = true ->
      Rabs (value (x / c1)%float - value x / value c1)
      <= / 2 ^ 53 * (value x / value c1) /\
      Rabs (value (x / c1 / c2)%float - value (x / c1)%float / value c2)
      <= / 2 ^ 53 * (value (x / c1)%float / value c2)) /\
  flux05 [10%float] 0.5%float = [20%float] /\
  flux_inf [10%float] 0.5%float 0.9%float = [22.222222222222221%float] /\
  (abs (22.222222222222221 - 22.222) <? 0.001)%float = true.
Proof.
  split; [reflexivity | split; [reflexivity | split; [| split]]].
  - unfold flux_inf, flux05, arr_div. now rewrite map_map.
  - intros x Hx Hc1 Hc2.
    apply moderate_normal in Hx, Hc1, Hc2.
    destruct (@value_div _ _ _ _ x c1 Hx Hc1 ltac:(lia) ltac:(lia))
      as [Nq _].
    split.
    + apply (@value_div_quotient _ _ _ _ x c1 Hx Hc1); lia.
    + apply (@value_div_quotient _ _ _ _ (x / c1)%float c2 Nq Hc2); lia.
  - repeat split.
Qed.

Lemma aperture_chain_quotients_example :
  moderate 10%float = true /\ moderate 0.5%float = true /\
  moderate 0.9%float = true /\
  flux05 [10%float] 0.5%float = [20%float] /\
  Rabs (value (10 / 0.5)%float - value 10%float / value 0.5%float)
  <= / 2 ^ 53 * (value 10%float / value 0.5%float) /\
  Rabs (value (10 / 0.5 / 0.9)%float
        - value (10 / 0.5)%float / value 0.9%float)
  <= / 2 ^ 53 * (value (10 / 0.5)%float / value 0.9%float).
Proof.
  assert (Hx : moderate 10%float = true) by (vm_compute; reflexivity).
  assert (H1 : moderate 0.5%float = true) by (vm_compute; reflexivity).
  assert (H2 : moderate 0.9%float = true) by (vm_compute; reflexivity).
  destruct (aperture_chain_quotients [10%float] 0.5%float 0.9%float)
    as (_ & _ & _ & Hacc & Hmed & _).
  split; [exact Hx | split; [exact H1 | split; [exact H2 |]]].
  split; [exact Hmed |].
  exact (Hacc 10%float Hx H1 H2).
Defined.

(** The quotients are IEEE quotients: on positive finite inputs outside
    that range they can overflow to [+inf] and underflow to [0.0]. *)
Example aperture_chain_overflow_binary64 :
  flux_inf [1e308%float] 0.5%float 0.9%float = [infinity] /\
  flux_inf [5e-324%float] 4%float 1%float = [0%float].
Proof. split; vm_compute; reflexivity. Qed.

(** The literals of the data cells, read in binary64, are the floats
    Python parses. *)
Example data_cells_binary64 :
  instrumental_flux
  = [5.2393%float; 7.2935%float; 3.2355%float; 4.9368%float] /\
  correction_05_to_inf = 0.915%float.
Proof. split; vm_compute; reflexivity. Qed.

(** ** Two divisions and one division by the product *)




(** ** The zeropoint calculator *)

(** C1.  For every [photflam] and [photplam], positive ones included, and
    whatever function computes [np.log10], the zeropoint cell returns
    [zp_st = -2.5 log10(photflam) - 21.10] and
    [zp_ab = -2.5 log10(photflam) - 5 log10(photplam) - 2.408], computed
    in binary64 in this order on the binary64 numbers nearest the four
    literals.  As real numbers: when the logarithms returned are of
    ordinary size and within [eps] of the real logarithms, [zp_st] is
    within [2.5 eps + 2^-39] and [zp_ab] within [7.5 eps + 2^-38] of the
    value of the formula. *)
Theorem zeropoints_closed_form {L : Log10 float} (photflam photplam : float) :
  zp_stmag photflam = (-2.5 * flog10 photflam - 21.10)%float /\
  zp_abmag photflam photplam
  = (-2.5 * flog10 photflam - 5 * flog10 photplam - 2.408)%float /\
  (forall eps : R,
      small (flog10 photflam) = true ->
      Rabs (value (flog10 photflam) - log10 (value photflam)) <= eps ->
      Rabs (value (zp_stmag photflam)
            - (-2.5 * log10 (value photflam) - 21.10))
      <= 2.5 * eps + / 2 ^ 39) /\
  (forall eps : R,
      small (flog10 photflam) = true -> small (flog10 photplam) = true ->
      Rabs (value (flog10 photflam) - log10 (value photflam)) <= eps ->
      Rabs (value (flog10 photplam) - log10 (value photplam)) <= eps ->
      Rabs (value (zp_abmag photflam photplam)
            - (-2.5 * log10 (value photflam)
               - 5 * log10 (value photplam) - 2.408))
      <= 7.5 * eps + / 2 ^ 38).
Proof.
  split; [reflexivity | split; [reflexivity | split]].
  - intros eps Hs He.
    exact (@zp_stmag_close_to_formula (flog10 photflam) _ _ Hs He).
  - intros eps Hs1 Hs2 He1 He2.
    exact (@zp_abmag_close_to_formula (flog10 photflam) (flog10 photplam)
             _ _ _ Hs1 Hs2 He1 He2).
Qed.

(** A function that returns [-18], the logarithm of [1e-18], for the
    example below. *)
Local Abbreviation log10_minus_18 :=
  (Build_Log10 (fun _ : float => (-18)%float)).

Lemma zeropoints_closed_form_example :
  small (-18)%float = true /\
  @zp_stmag _ _ log10_minus_18 1e-18%float = 23.9%float /\
  Rabs (value 23.9%float - (-2.5 * log10 (value 1e-18%float) - 21.10))
  <= 2.5 * Rabs (value (-18)%float - log10 (value 1e-18%float))
     + / 2 ^ 39.
Proof.
  assert (Hs : small (-18)%float = true) by (vm_compute; reflexivity).
  destruct (@zeropoints_closed_form log10_minus_18 1e-18%float 5500%float)
    as (Hst & _ & Hacc & _).
  split; [exact Hs | split; [vm_compute; reflexivity |]].
  exact (Hacc _ Hs (Rle_refl _)).
Defined.

(** The specification's test vector: where the logarithm of
    [photflam = 1e-18] is [-18], the cell returns [45 - 21.10], which is
    the binary64 number [23.9]. *)
Example zp_stmag_test_vector {L : Log10 float} :
  flog10 1e-18%float = (-18)%float -> zp_stmag 1e-18%float = 23.9%float.
Proof.
  intros Hlog. unfold zp_stmag. rewrite Hlog. vm_compute. reflexivity.
Qed.

(** ** The magnitude converter *)

(** C3.  For every array of corrected fluxes, positive ones included, every
    [photflam] and zeropoints [zp_st], [zp_ab], [zp_vega], and whatever
    function computes [np.log10], the converter returns
    [f_lambda = flux_inf * photflam] and the three magnitudes
    [-2.5 log10(flux_inf) + zp], entry by entry in binary64; the table built
    from them has one result per measured flux, made of that flux, the
    flux density and the three magnitudes of its corrected flux.  As real
    numbers: for a flux and a [photflam] between [2^-200] and [2^200] the
    flux density is the real product to within [2^-53], relatively; and
    when the logarithm returned and the zeropoint are of ordinary size and
    the logarithm is within [eps] of the real one, a magnitude is within
    [2.5 eps + 2^-39] of the value of the formula. *)
Theorem magnitude_converter_rows {L : Log10 float}
    (fluxes raws : ndarray float)
    (photflam photplam zp_st zp_ab zp_vega c1 c2 : float) :
  f_lambda fluxes photflam = map (fun x => (x * photflam)%float) fluxes /\
  stmags fluxes zp_st
  = map (fun x => (-2.5 * flog10 x + zp_st)%float) fluxes /\
  abmags fluxes zp_ab
  = map (fun x => (-2.5 * flog10 x + zp_ab)%float) fluxes /\
  vegamags fluxes zp_vega
  = map (fun x => (-2.5 * flog10 x + zp_vega)%float) fluxes /\
  rows (phot_table raws c1 c2 photflam photplam zp_vega)
  = map (fun x =>
           mkResult
             x
             (x / c1 / c2 * photflam)%float
             (-2.5 * flog10 (x / c1 / c2) + zp_stmag photflam)%float
             (-2.5 * flog10 (x / c1 / c2) + zp_abmag photflam photplam)%float
             (-2.5 * flog10 (x / c1 / c2) + zp_vega)%float)
        raws /\
  length (rows (phot_table raws c1 c2 photflam photplam zp_vega))
  = length raws /\
  (forall x : float,
      moderate x = true -> moderate photflam = true ->
      Rabs (value (x * photflam)%float - value x * value photflam)
      <= / 2 ^ 53 * (value x * value photflam)) /\
  (forall (x zp : float) (eps : R),
      small (flog10 x) = true -> small zp = true ->
      Rabs (value (flog10 x) - log10 (value x)) <= eps ->
      Rabs (value (-2.5 * flog10 x + zp)%float
            - (-2.5 * log10 (value x) + value zp))
      <= 2.5 * eps + / 2 ^ 39).
Proof.
  assert (Hmags : forall zp,
             mags fluxes zp
             = map (fun x => (-2.5 * flog10 x + zp)%float) fluxes).
  { intros zp. unfold mags, arr_add, scal_mul, np_log10.
    now rewrite !map_map. }
  unfold stmags, abmags, vegamags.
  split; [reflexivity |].
  split; [apply Hmags | split; [apply Hmags | split; [apply Hmags |]]].
  split; [| split; [| split]].
  - rewrite rows_phot_table. apply map_ext. intros x. reflexivity.
  - now rewrite rows_phot_table, length_map.
  - intros x Hx Hpf. apply moderate_normal in Hx, Hpf.
    apply (@value_mul _ _ _ _ x photflam Hx Hpf); lia.
  - intros x zp eps Hl Hzp He.
    exact (@magnitude_close_to_formula (flog10 x) zp _ _ Hl Hzp He).
Qed.

Lemma magnitude_converter_rows_example :
  moderate 6.36%float = true /\ moderate 1e-18%float = true /\
  f_lambda [6.36%float] 1e-18%float = [(6.36 * 1e-18)%float] /\
  Rabs (value (6.36 * 1e-18)%float - value 6.36%float * value 1e-18%float)
  <= / 2 ^ 53 * (value 6.36%float * value 1e-18%float).
Proof.
  assert (Hx : moderate 6.36%float = true) by (vm_compute; reflexivity).
  assert (Hp : moderate 1e-18%float = true) by (vm_compute; reflexivity).
  destruct (@magnitude_converter_rows log10_minus_18 [6.36%float]
              [5.2393%float] 1e-18%float 5500%float 23.9%float 25.7%float
              25.6%float 0.8%float 0.915%float)
    as (Hf & _ & _ & _ & _ & _ & Hacc & _).
  split; [exact Hx | split; [exact Hp | split; [exact Hf |]]].
  exact (Hacc 6.36%float Hx Hp).
Defined.

(** The product is the binary64 one: it rounds, and outside that range it
    can underflow. *)
Example f_lambda_rounds_binary64 :
  f_lambda [6.36%float] 1e-18%float = [6.360000000000001e-18%float] /\
  f_lambda [1e-310%float] 1e-18%float = [0%float].
Proof. split; vm_compute; reflexivity. Qed.

(** ** A run on inputs in range *)

Lemma normal_between_positive_finite (a b : Z) (x : float) :
  normal_between a b x -> positive_finite x = true.
Proof.
  intros (m & e & Hx & _). unfold positive_finite.
  apply andb_true_iff. split.
  - rewrite FloatAxioms.ltb_spec, sf_of_zero, Hx. reflexivity.
  - unfold PrimFloat.is_finite, PrimFloat.is_nan, PrimFloat.is_infinity.
    rewrite !FloatAxioms.eqb_spec, FloatAxioms.abs_spec, sf_of_infinity, Hx.
    rewrite SFeqb_refl_not_nan by discriminate. reflexivity.
Qed.

(** In binary64, with measured fluxes, correction factors and [photflam]
    between [2^-200] and [2^200], nothing overflows or underflows on the
    way to the table: every corrected flux and every flux density is a
    positive finite number, so the logarithm is taken of positive finite
    numbers only. *)
Theorem in_range_chain_binary64
    (raws : ndarray float) (c1 c2 photflam : float) :
  Forall (fun x => moderate x = true) raws ->
  moderate c1 = true -> moderate c2 = true -> moderate photflam = true ->
  Forall (fun v => positive_finite v = true) (flux_inf raws c1 c2) /\
  Forall (fun v => positive_finite v = true)
         (f_lambda (flux_inf raws c1 c2) photflam).
Proof.
  intros Hraws Hc1 Hc2 Hpf.
  apply moderate_normal in Hc1, Hc2, Hpf.
  assert (Hfi : forall x, moderate x = true ->
                          normal_between (-654) 550 (x / c1 / c2)%float).
  { intros x Hx. apply moderate_normal in Hx.
    destruct (@value_div _ _ _ _ x c1 Hx Hc1 ltac:(lia) ltac:(lia))
      as [Nq _].
    destruct (@value_div _ _ _ _ (x / c1)%float c2 Nq Hc2
                ltac:(lia) ltac:(lia)) as [Nfi _].
    exact Nfi. }
  unfold f_lambda, arr_mul, flux_inf, flux05, arr_div. rewrite !map_map.
  rewrite Forall_forall in Hraws.
  split; apply Forall_map, Forall_forall; intros x Hx;
    specialize (Hfi x (Hraws x Hx)).
  - exact (normal_between_positive_finite Hfi).
  - destruct (@value_mul _ _ _ _ (x / c1 / c2)%float photflam Hfi Hpf
                ltac:(lia) ltac:(lia)) as [Nf _].
    exact (normal_between_positive_finite Nf).
Qed.

Lemma in_range_chain_binary64_example :
  Forall (fun x => moderate x = true)
         [5.2393%float; 7.2935%float; 3.2355%float; 4.9368%float] /\
  moderate 0.8%float = true /\ moderate 0.915%float = true /\
  moderate 1e-18%float = true /\
  Forall (fun v => positive_finite v = true)
         (f_lambda
            (flux_inf [5.2393%float; 7.2935%float; 3.2355%float; 4.9368%float]
                      0.8%float 0.915%float)
            1e-18%float).
Proof.
  assert (Hraws : Forall (fun x => moderate x = true)
                    [5.2393%float; 7.2935%float; 3.2355%float; 4.9368%float]).
  { repeat (constructor; [vm_compute; reflexivity |]). constructor. }
  assert (H1 : moderate 0.8%float = true) by (vm_compute; reflexivity).
  assert (H2 : moderate 0.915%float = true) by (vm_compute; reflexivity).
  assert (H3 : moderate 1e-18%float = true) by (vm_compute; reflexivity).
  split; [exact Hraws | split; [exact H1 | split; [exact H2 | split;
    [exact H3 |]]]].
  exact (proj2 (@in_range_chain_binary64
                  [5.2393%float; 7.2935%float; 3.2355%float; 4.9368%float]
                  0.8%float 0.915%float 1e-18%float Hraws H1 H2 H3)).
Defined.
